(** * A shallow embedding of the logger hierarchy and configuration of go-logging

    The Go code keeps loggers in a tree: every [Logger] owns a map from a name
    part to its child and a back pointer to its parent.  We model the tree as a
    nested inductive value; a node is identified by its path of name parts from
    [Root] (the parent of the node at [p ++ [k]] is the node at [p]).  Go maps
    are modelled as association lists with first-match lookup, in one of the
    iteration orders the Go runtime may pick. *)

From Stdlib Require Import String Ascii List ZArith Lia Bool.
Import ListNotations.
Open Scope string_scope.
Open Scope Z_scope.

(** ** Levels ([type Level int]) *)

Definition Level := Z.

(** [const ( Undefined Level = 0; Fatal = (-iota * 100) - 1; Error; ... )]:
    [iota] is 1 on the [Fatal] line and grows by one per line. *)
Definition Undefined : Level := 0.
Definition Fatal  : Level := (- 1 * 100) - 1.
Definition Error  : Level := (- 2 * 100) - 1.
Definition Warn   : Level := (- 3 * 100) - 1.
Definition Notice : Level := (- 4 * 100) - 1.
Definition Info   : Level := (- 5 * 100) - 1.
Definition Debug  : Level := (- 6 * 100) - 1.
Definition Trace  : Level := (- 7 * 100) - 1.

Definition default_levels : list Level :=
  [Trace; Debug; Info; Notice; Warn; Error; Fatal].

(** [ReverseLevelStrings], built in [init] from [LevelStrings]. *)
Definition ReverseLevelStrings (s : string) : option Level :=
  if String.eqb s "FATAL" then Some Fatal
  else if String.eqb s "ERROR" then Some Error
  else if String.eqb s "WARN" then Some Warn
  else if String.eqb s "NOTICE" then Some Notice
  else if String.eqb s "INFO" then Some Info
  else if String.eqb s "DEBUG" then Some Debug
  else if String.eqb s "TRACE" then Some Trace
  else None.

(** [strings.ToUpper], on the ASCII letters (Unicode case mapping of
    non-ASCII characters is not modelled). *)
Definition ascii_upper (c : ascii) : ascii :=
  let n := nat_of_ascii c in
  if (Nat.leb 97 n && Nat.leb n 122)%bool then ascii_of_nat (n - 32) else c.

Fixpoint ToUpper (s : string) : string :=
  match s with
  | EmptyString => EmptyString
  | String c s' => String (ascii_upper c) (ToUpper s')
  end.

(** [strings.Split(s, sep)] for a one-character separator: never empty,
    [Split("", sep) = [""]]. *)
Fixpoint split_aux (sep : ascii) (s cur : string) : list string :=
  match s with
  | EmptyString => [cur]
  | String c s' =>
      if Ascii.eqb c sep then cur :: split_aux sep s' ""
      else split_aux sep s' (cur ++ String c "")
  end.

Definition Split (s : string) (sep : ascii) : list string := split_aux sep s "".

(** ** Outputters and messages *)

(** An [Outputter] is opaque to the hierarchy; outputters built by plugins
    are told apart by an identifier, and [ThresholdOutputter] is the wrapper
    built by [newOutputterConfig]. *)
Inductive Outputter : Type :=
| PluginOutputter (id : nat)
| ThresholdOutputter (threshold : Level) (output : Outputter).

(** [Message]: the time and the caller's file and line are not modelled; the
    originating [Logger] is given by its path. *)
Record Message : Type := mkMessage {
  MsgLevel : Level;
  Msg : string;
  MsgLogger : list string
}.

(** ** Loggers *)

Set Warnings "-register-all".

(** [type Logger struct { Name; Threshold; NoPropagate; parent; children;
    outputs }]; the [parent] pointer is implicit in the path of a node. *)
Inductive Logger : Type :=
| mkLogger (Name : string) (Threshold : Level) (NoPropagate : bool)
    (outputs : list Outputter) (children : list (string * Logger)).

Definition Name (l : Logger) := let '(mkLogger n _ _ _ _) := l in n.
Definition Threshold (l : Logger) := let '(mkLogger _ t _ _ _) := l in t.
Definition NoPropagate (l : Logger) := let '(mkLogger _ _ np _ _) := l in np.
Definition outputs (l : Logger) := let '(mkLogger _ _ _ os _) := l in os.
Definition children (l : Logger) := let '(mkLogger _ _ _ _ cs) := l in cs.

(** [newLogger(name, parent)]: the threshold is Go's zero value [Undefined]. *)
Definition newLogger (name : string) : Logger :=
  mkLogger name Undefined false [] [].

(** [l.children[k]] *)
Fixpoint find_child (k : string) (cs : list (string * Logger)) : option Logger :=
  match cs with
  | [] => None
  | (k', c) :: cs' => if String.eqb k k' then Some c else find_child k cs'
  end.

(** [l.children[k] = c] for a key already present. *)
Fixpoint replace_child (k : string) (c : Logger) (cs : list (string * Logger))
  : list (string * Logger) :=
  match cs with
  | [] => []
  | (k', c') :: cs' =>
      if String.eqb k k' then (k', c) :: cs' else (k', c') :: replace_child k c cs'
  end.

Definition with_children (l : Logger) (cs : list (string * Logger)) : Logger :=
  let '(mkLogger n t np os _) := l in mkLogger n t np os cs.

Definition set_child (l : Logger) (k : string) (c : Logger) : Logger :=
  with_children l (replace_child k c (children l)).

(** [l.children[k] = c] for a fresh key. *)
Definition add_child (l : Logger) (k : string) (c : Logger) : Logger :=
  with_children l (children l ++ [(k, c)]).

(** The node at a path below [l]. *)
Fixpoint lookup_path (l : Logger) (p : list string) : option Logger :=
  match p with
  | [] => Some l
  | k :: p' =>
      match find_child k (children l) with
      | Some c => lookup_path c p'
      | None => None
      end
  end.

(** Writing through the pointer to the node at [p] (nothing happens when
    there is no such node; the code only writes to nodes it holds). *)
Fixpoint update_at (p : list string) (f : Logger -> Logger) (l : Logger) : Logger :=
  match p with
  | [] => f l
  | k :: p' =>
      match find_child k (children l) with
      | Some c => set_child l k (update_at p' f c)
      | None => l
      end
  end.

Definition set_Threshold (lvl : Level) (l : Logger) : Logger :=
  let '(mkLogger n _ np os cs) := l in mkLogger n lvl np os cs.

Definition set_NoPropagate (b : bool) (l : Logger) : Logger :=
  let '(mkLogger n t _ os cs) := l in mkLogger n t b os cs.

(** [func (l *Logger) AddOutput(o Outputter)]: [append]. *)
Definition AddOutput (o : Outputter) (l : Logger) : Logger :=
  let '(mkLogger n t np os cs) := l in mkLogger n t np (os ++ [o]) cs.

(** ** The global hierarchy *)

(** The package variables [Root] and [configured]. *)
Record State : Type := mkState {
  Root : Logger;
  configured : bool
}.

(** [var Root = newLogger("root", nil)], [configured] is [false]. *)
Definition init_state : State := mkState (newLogger "root") false.

(** The loop of [Get]: walk down the parts, creating a missing child with
    [newLogger(fullname, logger)] and, when [configured], the current
    threshold of [logger]. *)
Fixpoint get_walk (cfg : bool) (fullname : string) (parts : list string)
    (logger : Logger) : Logger :=
  match parts with
  | [] => logger
  | part :: rest =>
      match find_child part (children logger) with
      | Some child => set_child logger part (get_walk cfg fullname rest child)
      | None =>
          let child :=
            if cfg then set_Threshold (Threshold logger) (newLogger fullname)
            else newLogger fullname in
          add_child logger part (get_walk cfg fullname rest child)
      end
  end.

(** [func Get(fullname string) *Logger]: the returned pointer is the node at
    path [strings.Split(fullname, ".")]. *)
Definition Get (st : State) (fullname : string) : State * list string :=
  let parts := Split fullname "." in
  (mkState (get_walk (configured st) fullname parts (Root st)) (configured st), parts).

(** [child.Configure()] once [child] has taken [l.Threshold] if it was
    [Undefined]; [pthr] is [l.Threshold].  The children are independent
    subtrees, so the Go map's iteration order does not matter. *)
Fixpoint configure_child (pthr : Level) (child : Logger) : Logger :=
  match child with
  | mkLogger n t np os cs =>
      let t' := if Z.eqb t Undefined then pthr else t in
      mkLogger n t' np os (map (fun '(k, c) => (k, configure_child t' c)) cs)
  end.

(** [func (l *Logger) Configure()] *)
Definition Configure (l : Logger) : Logger :=
  match l with
  | mkLogger n t np os cs =>
      mkLogger n t np os (map (fun '(k, c) => (k, configure_child t c)) cs)
  end.

(** [func (l *Logger) doLog(msg *Message)], for the node at the reversed path
    [rp] (the head of [rp] is the last name part): call every output, then,
    unless [NoPropagate] or the node is [Root] ([parent == nil]), the parent. *)
Fixpoint doLog_rev (root : Logger) (rp : list string) (msg : Message)
  : list (Outputter * Message) :=
  match lookup_path root (rev rp) with
  | None => []
  | Some l =>
      map (fun o => (o, msg)) (outputs l) ++
      (if negb (NoPropagate l) then
         match rp with
         | [] => []
         | _ :: rp' => doLog_rev root rp' msg
         end
       else [])
  end.

Definition doLog (root : Logger) (p : list string) (msg : Message)
  : list (Outputter * Message) :=
  doLog_rev root (rev p) msg.

(** [func (l *Logger) Log(level Level, ...)]: [None] when the call returns
    at [if l.Threshold > level], otherwise the constructed [Message] and the
    list of [Output] calls made, in order.  [Fatal], [Error], ..., [Trace]
    and their [f] variants are [Log] at a fixed level. *)
Definition Log (root : Logger) (p : list string) (level : Level) (msgstr : string)
  : option (Message * list (Outputter * Message)) :=
  match lookup_path root p with
  | None => None
  | Some l =>
      if Z.gtb (Threshold l) level then None
      else
        let msg := mkMessage level msgstr p in
        Some (msg, doLog root p msg)
  end.

(** ** Configuration ([config.go]) *)

(** [ini.Section] ([map[string]string]) and [ini.File]
    ([map[string]ini.Section]), in one iteration order of the Go maps. *)
Definition Section_ : Type := list (string * string).
Definition config : Type := list (string * Section_).

Fixpoint assoc {A : Type} (k : string) (m : list (string * A)) : option A :=
  match m with
  | [] => None
  | (k', v) :: m' => if String.eqb k k' then Some v else assoc k m'
  end.

(** The errors [apply] can return. *)
Inductive error : Type :=
| ErrTypeNotSpecified
| ErrUnknownPlugin (name : string)
| ErrInvalidThreshold (thresh : string)      (* "invalid threshold: " + thresh *)
| ErrLoggersNotSpecified                     (* "loggers section not specified" *)
| ErrUnknownLevel (lvl : string)             (* "unknown logging level: " + .. *)
| ErrUnknownOutput (key : string)            (* "unknown logging output: " + .. *)
| ErrPlugin (msg : string).                  (* an error of a plugin factory *)

(** [OutputPlugin.CreateOutputter], and the registry [outputPlugins]
    ([None] is a missing entry, i.e. [plugin == nil]). *)
Definition OutputPlugin : Type := Section_ -> error + Outputter.
Definition registry : Type := string -> option OutputPlugin.

(** [func newOutputterConfig(config ini.Section) (Outputter, error)] *)
Definition newOutputterConfig (reg : registry) (sec : Section_) : error + Outputter :=
  match assoc "type" sec with
  | None => inl ErrTypeNotSpecified
  | Some name =>
      match reg name with
      | None => inl (ErrUnknownPlugin name)
      | Some plugin =>
          match plugin sec with
          | inl err => inl err
          | inr output =>
              match assoc "threshold" sec with
              | None => inr output
              | Some thresh =>
                  match ReverseLevelStrings (ToUpper thresh) with
                  | Some level => inr (ThresholdOutputter level output)
                  | None => inl (ErrInvalidThreshold thresh)
                  end
              end
          end
      end
  end.

(** The first loop of [apply]: [outputters[key] = output] for every section
    but ["loggers"] and the default section [""]; the first error returns. *)
Fixpoint build_outputters (reg : registry) (c : config)
    (outputters : list (string * Outputter)) : error + list (string * Outputter) :=
  match c with
  | [] => inr outputters
  | (key, section) :: c' =>
      if (negb (String.eqb key "loggers") && negb (String.eqb key ""))%bool then
        match newOutputterConfig reg section with
        | inl err => inl err
        | inr output => build_outputters reg c' ((key, output) :: outputters)
        end
      else build_outputters reg c' outputters
  end.

(** The loop over [parts[1:]] for the logger at path [p]. *)
Fixpoint setup_options (outputters : list (string * Outputter)) (p : list string)
    (keys : list string) (root : Logger) : option error * Logger :=
  match keys with
  | [] => (None, root)
  | outputKey :: keys' =>
      if String.eqb outputKey "nopropagate" then
        setup_options outputters p keys' (update_at p (set_NoPropagate true) root)
      else
        match assoc outputKey outputters with
        | Some outputter =>
            setup_options outputters p keys' (update_at p (AddOutput outputter) root)
        | None => (Some (ErrUnknownOutput outputKey), root)
        end
  end.

(** One iteration of [for name, config := range loggerSection]. *)
Definition setup_entry (outputters : list (string * Outputter))
    (entry : string * string) (st : State) : option error * State :=
  let '(name, cfg) := entry in
  let parts := Split cfg "," in
  let part0 := hd "" parts in
  match ReverseLevelStrings (ToUpper part0) with
  | None => (Some (ErrUnknownLevel part0), st)
  | Some level =>
      let '(st1, p) := if String.eqb name "root" then (st, []) else Get st name in
      let root2 := update_at p (set_Threshold level) (Root st1) in
      let '(r, root3) := setup_options outputters p (tl parts) root2 in
      (r, mkState root3 (configured st1))
  end.

Fixpoint setup_loggers (outputters : list (string * Outputter))
    (entries : list (string * string)) (st : State) : option error * State :=
  match entries with
  | [] => (None, st)
  | e :: entries' =>
      match setup_entry outputters e st with
      | (None, st1) => setup_loggers outputters entries' st1
      | (Some err, st1) => (Some err, st1)
      end
  end.

(** [func (c config) apply() (err error)]: the error and the hierarchy it
    leaves behind (a failure does not undo earlier writes). *)
Definition apply (reg : registry) (c : config) (st : State) : option error * State :=
  match build_outputters reg c [] with
  | inl err => (Some err, st)
  | inr outputters =>
      match assoc "loggers" c with
      | None => (Some ErrLoggersNotSpecified, st)
      | Some loggerSection =>
          match setup_loggers outputters loggerSection st with
          | (Some err, st1) => (Some err, st1)
          | (None, st1) => (None, mkState (Configure (Root st1)) true)
          end
      end
  end.

(** The operations a program can perform on the hierarchy after a [Get]. *)
Inductive op : Type :=
| OpGet (name : string)
| OpSetThreshold (p : list string) (lvl : Level)
| OpSetNoPropagate (p : list string) (b : bool)
| OpAddOutput (p : list string) (o : Outputter)
| OpConfigure (p : list string)
| OpApply (reg : registry) (c : config)
| OpCustomSetup.

Definition run_op (st : State) (o : op) : State :=
  match o with
  | OpGet name => fst (Get st name)
  | OpSetThreshold p lvl => mkState (update_at p (set_Threshold lvl) (Root st)) (configured st)
  | OpSetNoPropagate p b => mkState (update_at p (set_NoPropagate b) (Root st)) (configured st)
  | OpAddOutput p o => mkState (update_at p (AddOutput o) (Root st)) (configured st)
  | OpConfigure p => mkState (update_at p Configure (Root st)) (configured st)
  | OpApply reg c => snd (apply reg c st)
  | OpCustomSetup => mkState (Root st) true
  end.

Definition run_ops (st : State) (os : list op) : State := fold_left run_op os st.

(** ** Readings of the specification

    These follow the words of the specification, to be compared with the
    definitions above. *)

(** A node [p] and its ancestors, nearest first: [p], its parent, ..., [Root]
    (given on the reversed path). *)
Fixpoint ancestors_desc_rev (rp : list string) : list (list string) :=
  rev rp :: match rp with [] => [] | _ :: rp' => ancestors_desc_rev rp' end.

Definition ancestors_desc (p : list string) : list (list string) :=
  ancestors_desc_rev (rev p).

(** The prefix of [xs] up to and including the first element satisfying [stop]. *)
Fixpoint take_until_incl {A : Type} (stop : A -> bool) (xs : list A) : list A :=
  match xs with
  | [] => []
  | x :: xs' => x :: (if stop x then [] else take_until_incl stop xs')
  end.

Definition noprop_at (t : Logger) (q : list string) : bool :=
  match lookup_path t q with Some n => NoPropagate n | None => false end.

Definition outputs_at (t : Logger) (q : list string) : list Outputter :=
  match lookup_path t q with Some n => outputs n | None => [] end.

(** The nodes a message accepted at [p] reaches: walking upward from [p]
    until the first node (inclusive) with [NoPropagate], or the root. *)
Definition propagation_chain (t : Logger) (p : list string) : list (list string) :=
  take_until_incl (noprop_at t) (ancestors_desc p).

(** Every outputter of every node of the chain, in attachment order at each
    node, receives the same message. *)
Definition delivered (t : Logger) (p : list string) (m : Message)
  : list (Outputter * Message) :=
  flat_map (fun q => map (fun o => (o, m)) (outputs_at t q)) (propagation_chain t p).

(** Thresholds of the proper ancestors of [p], from the root down. *)
Fixpoint ancestors_thr (l : Logger) (p : list string) : list Level :=
  match p with
  | [] => []
  | k :: p' =>
      Threshold l ::
      match find_child k (children l) with
      | Some c => ancestors_thr c p'
      | None => []
      end
  end.

(** The threshold of the nearest ancestor whose threshold is not
    [Undefined], or [Undefined] when there is none. *)
Definition nearest_configured (t : Logger) (p : list string) : Level :=
  last (filter (fun z => negb (Z.eqb z Undefined)) (ancestors_thr t p)) Undefined.

(** The node a [loggers] entry named [name] configures. *)
Definition entry_path (name : string) : list string :=
  if String.eqb name "root" then [] else Split name ".".

Definition mentioned (c : config) (p : list string) : Prop :=
  exists ls, assoc "loggers" c = Some ls /\
    exists name v, In (name, v) ls /\ p = entry_path name.

(** The outputters a [loggers] value names after its level, in order: each
    key other than [nopropagate], looked up among the output sections. *)
Definition entry_outputs (outputters : list (string * Outputter)) (keys : list string)
  : list Outputter :=
  flat_map (fun key => if String.eqb key "nopropagate" then []
                       else match assoc key outputters with Some o => [o] | None => [] end)
    keys.

(** The outputters the entries of a [loggers] section name for the node [p],
    entry after entry. *)
Definition named_outputs (outputters : list (string * Outputter))
    (entries : list (string * string)) (p : list string) : list Outputter :=
  flat_map (fun '(name, v) =>
              if list_eq_dec string_dec p (entry_path name)
              then entry_outputs outputters (tl (Split v ",")) else []) entries.

(** The mock plugin of [logging_test.go] ([RegisterOutputPlugin("mock", ...)]). *)
Definition mock_registry : registry :=
  fun name => if String.eqb name "mock" then Some (fun _ => inr (PluginOutputter 0))
              else None.

(** ** Further code of the package *)

(** [strconv.Itoa] and the verb [%d] of [fmt]: the decimal digits of the
    absolute value, after a [-] for a negative number. *)
Definition digit_char (d : N) : ascii := ascii_of_N (48 + d).

Fixpoint utoa_aux (fuel : nat) (n : N) (acc : string) : string :=
  match fuel with
  | O => acc
  | S fuel' =>
      let acc' := String (digit_char (N.modulo n 10)) acc in
      if N.ltb n 10 then acc' else utoa_aux fuel' (N.div n 10) acc'
  end.

Definition Itoa (z : Z) : string :=
  let s := utoa_aux (S (N.size_nat (Z.abs_N z))) (Z.abs_N z) "" in
  if Z.ltb z 0 then String "-" s else s.

(** [LevelStrings[l]], with Go's zero value [""] for a missing key. *)
Definition LevelStrings (l : Level) : string :=
  if Z.eqb l Fatal then "FATAL"
  else if Z.eqb l Error then "ERROR"
  else if Z.eqb l Warn then "WARN"
  else if Z.eqb l Notice then "NOTICE"
  else if Z.eqb l Info then "INFO"
  else if Z.eqb l Debug then "DEBUG"
  else if Z.eqb l Trace then "TRACE"
  else "".

(** [func (l Level) String() string] *)
Definition Level_String (l : Level) : string :=
  let s := LevelStrings l in
  if negb (String.eqb s "") then s else "LEVEL:" ++ Itoa l.

(** [Outputter.Output(msg)]: the plugin outputters the call reaches.
    [ThresholdOutputter.Output] returns when [t.Threshold > msg.Level] and
    forwards to the wrapped outputter otherwise. *)
Fixpoint Output (o : Outputter) (msg : Message) : list (nat * Message) :=
  match o with
  | PluginOutputter id => [(id, msg)]
  | ThresholdOutputter t o' => if Z.gtb t (MsgLevel msg) then [] else Output o' msg
  end.

(** [func DefaultSetup()]: [stderr_out] is the [StringOutputter] writing to
    [os.Stderr] with [NewBasicFormatter("[$level] $datetime - $msg")]. *)
Definition DefaultSetup (stderr_out : Outputter) (st : State) : State :=
  let root1 := set_Threshold Trace (Root st) in
  mkState (AddOutput stderr_out root1) true.

(** *** [BasicFormatter] *)

(** [type templatePart struct { Str string; Var bool }] *)
Record templatePart : Type := mkTemplatePart {
  Str : string;
  Var : bool
}.

Definition is_letter (c : ascii) : bool :=
  let n := nat_of_ascii c in
  ((Nat.leb 65 n && Nat.leb n 90) || (Nat.leb 97 n && Nat.leb n 122))%bool.

(** The longest prefix of letters ([[a-zA-Z]+] is greedy). *)
Fixpoint letters_prefix (s : string) : string :=
  match s with
  | EmptyString => EmptyString
  | String c s' => if is_letter c then String c (letters_prefix s') else EmptyString
  end.

(** The longest prefix without [$] ([[^\$]+] is greedy). *)
Fixpoint nondollar_prefix (s : string) : string :=
  match s with
  | EmptyString => EmptyString
  | String c s' => if Ascii.eqb c "$" then EmptyString else String c (nondollar_prefix s')
  end.

(** [templateRegex.FindString(s)] for [^(\$[a-zA-Z]+|\$\$|[^\$]+)]: the
    alternatives are tried in order (leftmost-first), [""] when none
    matches.  A byte of a multi-byte character is never [$], so working on
    bytes gives the same matches. *)
Definition templateRegex_FindString (s : string) : string :=
  match s with
  | EmptyString => EmptyString
  | String c r =>
      if Ascii.eqb c "$" then
        match letters_prefix r with
        | EmptyString =>
            match r with
            | String c2 _ => if Ascii.eqb c2 "$" then "$$" else EmptyString
            | EmptyString => EmptyString
            end
        | ls => String "$" ls
        end
      else nondollar_prefix s
  end.

(** [s[n:]] *)
Fixpoint str_drop (n : nat) (s : string) : string :=
  match n, s with
  | O, _ => s
  | S _, EmptyString => EmptyString
  | S n', String _ s' => str_drop n' s'
  end.

(** The [switch] of [NewBasicFormatter] on a match. *)
Definition template_part (match_ : string) : templatePart :=
  if String.eqb match_ "$$" then mkTemplatePart "$" false
  else match match_ with
       | String "$" name => mkTemplatePart name true
       | _ => mkTemplatePart match_ false
       end.

(** The loop of [NewBasicFormatter]; [None] is the
    [panic("invalid template: " + template)].  Every round consumes at least
    one byte, so [String.length template + 1] rounds are enough. *)
Fixpoint template_loop (fuel : nat) (remain : string) : option (list templatePart) :=
  match fuel with
  | O => None
  | S fuel' =>
      if (String.length remain =? 0)%nat then Some []
      else
        let match_ := templateRegex_FindString remain in
        if String.eqb match_ "" then None
        else
          let part := template_part match_ in
          match template_loop fuel' (str_drop (String.length match_) remain) with
          | Some parts => Some (part :: parts)
          | None => None
          end
  end.

(** [type BasicFormatter struct { DateVars map[string]string; template []templatePart }] *)
Record BasicFormatter : Type := mkBasicFormatter {
  DateVars : list (string * string);
  template : list templatePart
}.

(** [func NewBasicFormatter(template string) *BasicFormatter] *)
Definition NewBasicFormatter (tmpl : string) : option BasicFormatter :=
  match template_loop (S (String.length tmpl)) tmpl with
  | None => None
  | Some parts =>
      Some (mkBasicFormatter
              [("date", "02/01/2006"); ("time", "15:04:05");
               ("datetime", "Mon Jan _2 15:04:05 2006")] parts)
  end.

(** The fields of a [Message] the formatter reads; the time is seen through
    [msg.Time.Format(layout)], and the [Logger] pointer through the [Name] of
    the logger it points to ([None] for a nil pointer). *)
Record FullMessage : Type := mkFullMessage {
  FLevel : Level;
  FMsg : string;
  FTimeFormat : string -> string;
  FFile : string;
  FLine : Z;
  FLogger : option string
}.

(** [path.Base] *)
Fixpoint drop_slashes (r : list ascii) : list ascii :=
  match r with
  | c :: r' => if Ascii.eqb c "/" then drop_slashes r' else r
  | [] => []
  end.

Fixpoint take_to_slash (r : list ascii) : list ascii :=
  match r with
  | c :: r' => if Ascii.eqb c "/" then [] else c :: take_to_slash r'
  | [] => []
  end.

Definition path_Base (p : string) : string :=
  if String.eqb p "" then "."
  else
    match drop_slashes (rev (list_ascii_of_string p)) with
    | [] => "/"
    | r => string_of_list_ascii (rev (take_to_slash r))
    end.

(** [map[k]] with Go's zero value [""] for a missing key. *)
Definition lookup_str (k : string) (m : list (string * string)) : string :=
  match assoc k m with Some v => v | None => "" end.

(** [func (b *BasicFormatter) getVars(msg *Message) map[string]string]: the
    entries written by the loop over [DateVars] come first, as they
    overwrite the fixed ones. [None] is a nil-pointer panic: [msg] nil
    ([msg.Level]) or [msg.Logger] nil ([msg.Logger.Name]). *)
Definition getVars (b : BasicFormatter) (msg : option FullMessage)
  : option (list (string * string)) :=
  match msg with
  | None => None
  | Some m =>
      match FLogger m with
      | None => None
      | Some loggerName =>
          Some (map (fun '(key, layout) => (key, FTimeFormat m layout)) (DateVars b) ++
                [("level", Level_String (FLevel m)); ("msg", FMsg m);
                 ("file", path_Base (FFile m)); ("line", Itoa (FLine m));
                 ("logger", loggerName)])%list
      end
  end.

(** [func (b *BasicFormatter) Format(msg *Message) string]; [None] is the
    panic of [getVars]. *)
Definition Format (b : BasicFormatter) (msg : option FullMessage) : option string :=
  match getVars b msg with
  | None => None
  | Some vars =>
      Some (String.concat ""
              (map (fun part => if Var part then lookup_str (Str part) vars else Str part)
                   (template b)))
  end.

(** *** The [console] and [file] plugins ([WriterPlugin]) *)

(** The [io.Writer] a [WriterPlugin] picks. *)
Inductive Writer : Type :=
| WStdout
| WStderr
| WNewFile (fd : Z)            (* os.NewFile(uintptr(fd), "logging_output") *)
| WOpenFile (path : string)    (* os.OpenFile(path, ...) *)
| WNil.                        (* the zero value of io.Writer *)

Definition WriterPlugin : Type := Section_ -> Writer * option string.

(** The result of [CreateOutputter]: the [StringOutputter] built, an error,
    or the panic of [NewBasicFormatter]. *)
Inductive created : Type :=
| CreatedOutput (formatter : BasicFormatter) (w : Writer)
| CreatedError (msg : string)
| CreatedPanic (msg : string).

(** [func (chooser WriterPlugin) CreateOutputter(options) (Outputter, error)] *)
Definition WriterPlugin_CreateOutputter (chooser : WriterPlugin) (options : Section_)
  : created :=
  let format := lookup_str "format" options in
  if String.eqb format "" then CreatedError "console formatting string not specified"
  else
    let format := format ++ String (ascii_of_nat 10) "" in
    match NewBasicFormatter format with
    | None => CreatedPanic ("invalid template: " ++ format)
    | Some formatter =>
        match chooser options with
        | (_, Some err) => CreatedError err
        | (output, None) => CreatedOutput formatter output
        end
    end.

Definition is_digit (c : ascii) : bool :=
  (Nat.leb 48 (nat_of_ascii c) && Nat.leb (nat_of_ascii c) 57)%bool.

Fixpoint digits_value (s : string) (acc : Z) : option Z :=
  match s with
  | EmptyString => Some acc
  | String c s' =>
      if is_digit c then digits_value s' (acc * 10 + Z.of_nat (nat_of_ascii c - 48))
      else None
  end.

(** [strconv.Atoi] on a 64-bit platform: an optional sign, then at least one
    decimal digit, within the range of [int]; [None] is a non-nil error. *)
Definition Atoi (s : string) : option Z :=
  let '(neg, body) :=
    match s with
    | String "-" r => (true, r)
    | String "+" r => (false, r)
    | _ => (false, s)
    end in
  match body with
  | EmptyString => None
  | _ =>
      match digits_value body 0 with
      | None => None
      | Some v =>
          let z := if neg then - v else v in
          if (Z.leb (- 2 ^ 63) z && Z.leb z (2 ^ 63 - 1))%bool then Some z else None
      end
  end.

(** [var consolePlugin = WriterPlugin(func(options) (output io.Writer, err error) ...)].
    In the [default] case, [if fd, err := strconv.Atoi(stream); ...]
    declares a new [err] for the [if] and its [else]; the assignment of
    ["invalid console stream: " + stream] goes to that one, and the result
    [err] stays [nil]. *)
Definition consolePlugin : WriterPlugin :=
  fun options =>
    let stream := lookup_str "stream" options in
    if String.eqb stream "stdout" then (WStdout, None)
    else if String.eqb stream "stderr" then (WStderr, None)
    else if String.eqb stream "" then (WNil, Some "console stream not specified")
    else
      match Atoi stream with
      | Some fd => (WNewFile fd, None)
      | None =>
          let _shadowed_err := "invalid console stream: " ++ stream in
          (WNil, None)
      end.

(** Readings of the specification for the formatter: a template is valid
    when every [$] is followed by a letter or by a second [$] (the pair
    standing for one [$]); [unparse] writes template parts back as text. *)
Fixpoint template_ok (s : string) : bool :=
  match s with
  | EmptyString => true
  | String c r =>
      if Ascii.eqb c "$" then
        match r with
        | EmptyString => false
        | String c2 r2 => if Ascii.eqb c2 "$" then template_ok r2
                          else (is_letter c2 && template_ok r2)%bool
        end
      else template_ok r
  end.

Definition unparse (parts : list templatePart) : string :=
  String.concat ""
    (map (fun part => if Var part then String "$" (Str part)
                      else if String.eqb (Str part) "$" then "$$" else Str part) parts).

(** A string without [$]. *)
Definition no_dollar (a : string) : Prop :=
  Forall (fun c => c <> "$"%char) (list_ascii_of_string a).

(** Options of a [console] output section. *)
Definition console_foo_options : Section_ :=
  [("type", "console"); ("format", "$msg"); ("stream", "foo")].

Definition console_bad_format : Section_ :=
  [("type", "console"); ("format", "$msg costs 5$"); ("stream", "")].

(** ** Auxiliary definitions for the proofs *)

Ltac str_cases :=
  repeat match goal with
         | |- context [String.eqb ?a ?b] => destruct (String.eqb_spec a b); simpl
         end; subst; try reflexivity; try congruence.

Definition fields (l : Logger) : string * Level * bool * list Outputter :=
  (Name l, Threshold l, NoPropagate l, outputs l).

Definition np_outs (n : Logger) : bool * list Outputter := (NoPropagate n, outputs n).

Definition np_outs_f (f : string * Level * bool * list Outputter) : bool * list Outputter :=
  let '(_, _, b, os) := f in (b, os).

Section LoggerInd.
Variable P : Logger -> Prop.
Hypothesis Hnode : forall nm t np os cs,
  Forall (fun kc => P (snd kc)) cs -> P (mkLogger nm t np os cs).

Fixpoint Logger_ind' (l : Logger) : P l :=
  match l with
  | mkLogger nm t np os cs =>
      Hnode nm t np os cs
        ((fix go (cs : list (string * Logger)) : Forall (fun kc => P (snd kc)) cs :=
            match cs with
            | [] => Forall_nil _
            | (k, c) :: cs' => Forall_cons (k, c) (Logger_ind' c) (go cs')
            end) cs)
  end.
End LoggerInd.

Definition defined_level (z : Level) : bool := negb (Z.eqb z Undefined).

(** The nodes of [t] survive in [t'] with the same name, outputs only
    appended to, [NoPropagate] kept once set, no threshold reset to
    [Undefined], and a threshold other than [Undefined] changed only at the
    paths [M]. *)
Definition frame (M : list string -> Prop) (t t' : Logger) : Prop :=
  forall p n, lookup_path t p = Some n ->
  exists n', lookup_path t' p = Some n' /\
    Name n' = Name n /\
    (exists extra, outputs n' = (outputs n ++ extra)%list) /\
    (NoPropagate n = true -> NoPropagate n' = true) /\
    (Threshold n <> Undefined -> Threshold n' <> Undefined) /\
    (~ M p -> Threshold n <> Undefined -> Threshold n' = Threshold n).

(** Every node [p] of [t] is in [t'], with the outputs it had in [t] followed by [g p]. *)
Definition out_ext (t t' : Logger) (g : list string -> list Outputter) : Prop :=
  forall p n, lookup_path t p = Some n ->
  exists n', lookup_path t' p = Some n' /\ outputs n' = (outputs n ++ g p)%list.

(** An output section of type [bogus] (no such plugin). *)
Definition bogus_config : config :=
  [("loggers", [("root", "INFO,console")]); ("console", [("type", "bogus")])].

(** Two configurations applied one after the other, to a hierarchy where
    [Get("b")] ran first. *)
Definition config_a_info : config := [("loggers", [("a", "INFO")])].
Definition config_root_debug : config := [("loggers", [("root", "DEBUG")])].

Definition state_after_first : State :=
  snd (apply mock_registry config_a_info (fst (Get init_state "b"))).

Definition paths_incl (t t' : Logger) : Prop :=
  forall p, lookup_path t p <> None -> lookup_path t' p <> None.

(** ** Basic facts about the tree *)

Lemma find_child_replace k k' c cs :
  find_child k (replace_child k' c cs) =
  if String.eqb k k' then option_map (fun _ => c) (find_child k cs)
  else find_child k cs.
Proof.
  induction cs as [|[k1 c1] cs IH]; simpl.
  - destruct (String.eqb k k'); reflexivity.
  - destruct (String.eqb_spec k' k1) as [->|Hne]; simpl.
    + str_cases.
    + rewrite IH. str_cases.
Qed.

Lemma find_child_app k k' c cs :
  find_child k (cs ++ [(k', c)]) =
  match find_child k cs with
  | Some x => Some x
  | None => if String.eqb k k' then Some c else None
  end.
Proof.
  induction cs as [|[k1 c1] cs IH]; simpl.
  - str_cases.
  - destruct (String.eqb k k1); auto.
Qed.

Lemma replace_child_same k c cs :
  find_child k cs = Some c -> replace_child k c cs = cs.
Proof.
  induction cs as [|[k1 c1] cs IH]; simpl; [discriminate|].
  destruct (String.eqb_spec k k1) as [->|Hne].
  - intros [= ->]. reflexivity.
  - intros H. rewrite IH; auto.
Qed.

Lemma children_with_children l cs : children (with_children l cs) = cs.
Proof. destruct l; reflexivity. Qed.

Lemma fields_with_children l cs : fields (with_children l cs) = fields l.
Proof. destruct l; reflexivity. Qed.

Lemma with_children_same l : with_children l (children l) = l.
Proof. destruct l; reflexivity. Qed.

Lemma lookup_app l p q :
  lookup_path l (p ++ q) =
  match lookup_path l p with Some n => lookup_path n q | None => None end.
Proof.
  revert l; induction p as [|k p IH]; intros l; simpl; [reflexivity|].
  destruct (find_child k (children l)); auto.
Qed.

(** Writing a field of the node at [q] changes the fields of that node only. *)
Lemma lookup_update_at (f : Logger -> Logger)
  (Hf : forall l, children (f l) = children l) q t p :
  option_map fields (lookup_path (update_at q f t) p) =
  if list_eq_dec string_dec p q
  then option_map (fun n => fields (f n)) (lookup_path t p)
  else option_map fields (lookup_path t p).
Proof.
  revert t p; induction q as [|k q IH]; intros t p.
  - destruct p as [|k2 p]; simpl; [reflexivity|].
    rewrite Hf. reflexivity.
  - destruct (list_eq_dec string_dec p (k :: q)) as [->|Hne].
    + cbn [update_at lookup_path].
      destruct (find_child k (children t)) as [c|] eqn:E; [|rewrite E; reflexivity].
      unfold set_child. rewrite children_with_children, find_child_replace,
        String.eqb_refl, E. cbn [option_map].
      rewrite IH. destruct (list_eq_dec string_dec q q); [reflexivity|congruence].
    + destruct p as [|k2 p].
      * cbn [update_at lookup_path option_map].
        destruct (find_child k (children t)); [|reflexivity].
        unfold set_child. rewrite fields_with_children. reflexivity.
      * cbn [update_at lookup_path].
        destruct (find_child k (children t)) as [c|] eqn:E; [|rewrite ?E; reflexivity].
        unfold set_child. rewrite children_with_children, find_child_replace.
        destruct (String.eqb_spec k2 k) as [->|Hne2]; [|reflexivity].
        rewrite E. cbn [option_map]. rewrite IH.
        destruct (list_eq_dec string_dec p q) as [->|]; [congruence|reflexivity].
Qed.

(** ** Dispatch *)

Lemma np_outs_fields (x : option Logger) :
  option_map np_outs x = option_map np_outs_f (option_map fields x).
Proof. destruct x as [[]|]; reflexivity. Qed.

Lemma set_Threshold_children v l : children (set_Threshold v l) = children l.
Proof. destruct l; reflexivity. Qed.

Lemma lookup_rev_cons t x rp :
  lookup_path t (rev (x :: rp)) <> None -> lookup_path t (rev rp) <> None.
Proof.
  simpl. rewrite lookup_app. destruct (lookup_path t (rev rp)); congruence.
Qed.

(** [doLog] follows the propagation chain. *)
Lemma doLog_rev_chain root rp m :
  lookup_path root (rev rp) <> None ->
  doLog_rev root rp m =
  flat_map (fun q => map (fun o => (o, m)) (outputs_at root q))
    (take_until_incl (noprop_at root) (ancestors_desc_rev rp)).
Proof.
  induction rp as [|x rp IH]; intros H.
  - simpl. unfold noprop_at, outputs_at. simpl.
    destruct (NoPropagate root); simpl; rewrite !app_nil_r; reflexivity.
  - cbn [doLog_rev ancestors_desc_rev take_until_incl flat_map].
    unfold noprop_at at 1, outputs_at at 1.
    destruct (lookup_path root (rev (x :: rp))) as [l|] eqn:E; [|congruence].
    destruct (NoPropagate l); simpl; [rewrite app_nil_r; reflexivity|].
    rewrite IH; [reflexivity|]. apply (lookup_rev_cons _ x). congruence.
Qed.

(** [doLog] only reads the [NoPropagate] flags and the outputs. *)
Lemma doLog_rev_congr t t' rp m :
  (forall r, option_map np_outs (lookup_path t r) = option_map np_outs (lookup_path t' r)) ->
  doLog_rev t rp m = doLog_rev t' rp m.
Proof.
  intros H. induction rp as [|x rp IH]; simpl.
  - specialize (H []). simpl in H. injection H as H1 H2. rewrite H1, H2. reflexivity.
  - specialize (H (rev rp ++ [x])%list).
    destruct (lookup_path t (rev rp ++ [x])%list), (lookup_path t' (rev rp ++ [x])%list);
      simpl in H; try discriminate; [|reflexivity].
    injection H as H1 H2. rewrite H1, H2, IH. reflexivity.
Qed.

(** C1: a call [Log] at level [X] on the node [p] returns at the threshold
    check (no [Message] is built, no output fires) exactly when
    [X < Threshold]; otherwise the one [Message] it builds reaches every
    outputter of [p] and of its ancestors, in attachment order, up to the first
    node with [NoPropagate] (inclusive) or the root; and the thresholds of the
    other nodes play no part. *)
Theorem Log_threshold_and_propagation t p n X s :
  lookup_path t p = Some n ->
  (Log t p X s = None <-> X < Threshold n) /\
  (Threshold n <= X ->
   Log t p X s = Some (mkMessage X s p, delivered t p (mkMessage X s p))) /\
  (forall q v, q <> p -> Log (update_at q (set_Threshold v) t) p X s = Log t p X s).
Proof.
  intros H. split; [|split].
  - unfold Log. rewrite H, Z.gtb_ltb.
    destruct (Z.ltb_spec X (Threshold n)); split; intros; first [reflexivity | lia | discriminate].
  - intros Hle. unfold Log. rewrite H, Z.gtb_ltb.
    destruct (Z.ltb_spec X (Threshold n)); [lia|].
    unfold doLog, delivered, propagation_chain, ancestors_desc.
    rewrite doLog_rev_chain; [reflexivity|]. rewrite rev_involutive. congruence.
  - intros q v Hq.
    pose proof (lookup_update_at (set_Threshold v) (set_Threshold_children v) q t p) as Hp.
    destruct (list_eq_dec string_dec p q) as [|_]; [congruence|].
    rewrite H in Hp.
    destruct (lookup_path (update_at q (set_Threshold v) t) p) as [n'|] eqn:E;
      [|try rewrite E in Hp; discriminate].
    try rewrite E in Hp. unfold fields in Hp. simpl in Hp. injection Hp as _ Ht _ _.
    unfold Log, doLog. rewrite E, H, Ht. destruct (Threshold n >? X); [reflexivity|]. do 2 f_equal.
    apply doLog_rev_congr. intros r.
    rewrite !np_outs_fields, lookup_update_at by apply set_Threshold_children.
    destruct (list_eq_dec string_dec r q); [|reflexivity].
    destruct (lookup_path t r) as [[]|]; reflexivity.
Qed.

Lemma Log_threshold_and_propagation_witness :
  let t := mkLogger "root" Info false [PluginOutputter 0]
             [("a", mkLogger "a" Trace false [PluginOutputter 1] [])] in
  lookup_path t ["a"] = Some (mkLogger "a" Trace false [PluginOutputter 1] []) /\
  Log t ["a"] Debug "m" =
    Some (mkMessage Debug "m" ["a"],
          [(PluginOutputter 1, mkMessage Debug "m" ["a"]);
           (PluginOutputter 0, mkMessage Debug "m" ["a"])]).
Proof.
  split; [reflexivity|].
  destruct (Log_threshold_and_propagation
              (mkLogger "root" Info false [PluginOutputter 0]
                 [("a", mkLogger "a" Trace false [PluginOutputter 1] [])])
              ["a"] (mkLogger "a" Trace false [PluginOutputter 1] []) Debug "m"
              eq_refl) as [_ [H _]].
  rewrite H by (vm_compute; discriminate). vm_compute. reflexivity.
Defined.

(** C2 (as amended): the named levels are strictly increasing from [Trace]
    to [Fatal], and [Undefined] (0) lies strictly above all of them. *)
Theorem levels_order :
  Trace < Debug /\ Debug < Info /\ Info < Notice /\ Notice < Warn /\
  Warn < Error /\ Error < Fatal /\ Fatal < Undefined /\
  (forall l, In l default_levels -> l < Undefined).
Proof.
  unfold Trace, Debug, Info, Notice, Warn, Error, Fatal, Undefined.
  repeat split; try lia.
  intros l Hl. simpl in Hl.
  repeat (destruct Hl as [<-|Hl]; [unfold Trace, Debug, Info, Notice, Warn, Error, Fatal; lia|]). destruct Hl.
Qed.

(** C2: the claim that [Undefined] is weaker than [Trace] fails. *)
Lemma Undefined_not_below_Trace : ~ (Undefined < Trace).
Proof. unfold Undefined, Trace. lia. Qed.

(** ** [Get] *)

Lemma fields_set_child l k c : fields (set_child l k c) = fields l.
Proof. apply fields_with_children. Qed.

Lemma fields_add_child l k c : fields (add_child l k c) = fields l.
Proof. apply fields_with_children. Qed.

Lemma get_walk_fields cfg fn parts l : fields (get_walk cfg fn parts l) = fields l.
Proof.
  destruct parts as [|part rest]; simpl; [reflexivity|].
  destruct (find_child part (children l)); [apply fields_set_child|apply fields_add_child].
Qed.

(** Nodes that exist keep their fields. *)
Lemma get_walk_old cfg fn parts l p n :
  lookup_path l p = Some n ->
  exists n', lookup_path (get_walk cfg fn parts l) p = Some n' /\ fields n' = fields n.
Proof.
  revert l p n; induction parts as [|part rest IH]; intros l p n Hl; simpl.
  - exists n; auto.
  - destruct (find_child part (children l)) as [c|] eqn:E.
    + destruct p as [|k p]; simpl in *.
      * injection Hl as <-. eexists; split; [reflexivity|apply fields_set_child].
      * unfold set_child. rewrite children_with_children, find_child_replace.
        destruct (String.eqb_spec k part) as [->|Hne].
        -- rewrite E in *. simpl. eapply IH; eauto.
        -- eauto.
    + destruct p as [|k p]; simpl in *.
      * injection Hl as <-. eexists; split; [reflexivity|apply fields_add_child].
      * unfold add_child. rewrite children_with_children, find_child_app.
        destruct (find_child k (children l)); [eauto|discriminate].
Qed.

(** The path of the name exists afterwards. *)
Lemma get_walk_path cfg fn parts l :
  lookup_path (get_walk cfg fn parts l) parts <> None.
Proof.
  revert l; induction parts as [|part rest IH]; intros l; simpl; [discriminate|].
  destruct (find_child part (children l)) as [c|] eqn:E.
  - unfold set_child. rewrite children_with_children, find_child_replace,
      String.eqb_refl, E. apply IH.
  - unfold add_child. rewrite children_with_children, find_child_app, E,
      String.eqb_refl. apply IH.
Qed.

(** On a path that exists, [Get] changes nothing. *)
Lemma get_walk_exists cfg fn parts l :
  lookup_path l parts <> None -> get_walk cfg fn parts l = l.
Proof.
  revert l; induction parts as [|part rest IH]; intros l H; simpl in *; [reflexivity|].
  destruct (find_child part (children l)) as [c|] eqn:E; [|congruence].
  rewrite IH by exact H. unfold set_child.
  rewrite replace_child_same by exact E. apply with_children_same.
Qed.

Lemma newLogger_cfg_lookup (cfg : bool) (thr : Level) (fn : string) (p : list string) :
  p <> [] ->
  lookup_path (if cfg then set_Threshold thr (newLogger fn) else newLogger fn) p = None.
Proof. destruct p; [congruence|]. destruct cfg; reflexivity. Qed.

(** A node [Get] creates is named [fullname], has no outputs, and the
    threshold [Undefined], or the one of its parent when [configured]. *)
Lemma get_walk_new cfg fn parts l p n' :
  lookup_path (get_walk cfg fn parts l) p = Some n' ->
  lookup_path l p = None ->
  p <> [] /\ Name n' = fn /\ NoPropagate n' = false /\ outputs n' = [] /\
  exists pn, lookup_path (get_walk cfg fn parts l) (removelast p) = Some pn /\
             Threshold n' = (if cfg then Threshold pn else Undefined).
Proof.
  revert l p n'; induction parts as [|part rest IH]; intros l p n' Hn Hl;
    [cbn [get_walk] in Hn; congruence|].
  cbn [get_walk] in Hn |- *.
  destruct p as [|k p]; simpl in Hl; [discriminate|].
  destruct (find_child part (children l)) as [c|] eqn:E.
  - cbn [lookup_path] in Hn. unfold set_child in Hn.
    rewrite children_with_children, find_child_replace in Hn.
    destruct (String.eqb_spec k part) as [->|Hne].
    + rewrite E in Hn, Hl. simpl in Hn.
      destruct (IH c p n' Hn Hl) as (Hp & Hname & Hnp & Hos & pn & Hpn & Ht).
      repeat split; auto; [discriminate|].
      exists pn. split; [|exact Ht].
      destruct p as [|x p]; [congruence|].
      change (removelast (part :: x :: p)) with (part :: removelast (x :: p)).
      cbn [lookup_path]. unfold set_child. rewrite children_with_children, find_child_replace,
        String.eqb_refl, E. exact Hpn.
    + destruct (find_child k (children l)); congruence.
  - cbn [lookup_path] in Hn. unfold add_child in Hn.
    rewrite children_with_children, find_child_app in Hn.
    destruct (find_child k (children l)) as [c|] eqn:Ek; [congruence|].
    destruct (String.eqb_spec k part) as [->|Hne]; [|discriminate].
    set (child := if cfg then set_Threshold (Threshold l) (newLogger fn)
                  else newLogger fn) in *.
    destruct p as [|x p].
    + cbn [lookup_path] in Hn. injection Hn as <-.
      pose proof (get_walk_fields cfg fn rest child) as Hf.
      unfold fields in Hf. injection Hf as Hname Ht Hnp Hos.
      rewrite Hname, Ht, Hnp, Hos.
      repeat split; try discriminate; try (subst child; destruct cfg; reflexivity).
      exists (add_child l part (get_walk cfg fn rest child)). split; [reflexivity|].
      pose proof (fields_add_child l part (get_walk cfg fn rest child)) as Hf.
      unfold fields in Hf. injection Hf as _ Ht' _ _. rewrite Ht'.
      subst child; destruct cfg; reflexivity.
    + destruct (IH child (x :: p) n' Hn (newLogger_cfg_lookup cfg (Threshold l) fn (x :: p) ltac:(discriminate)))
        as (Hp & Hname & Hnp & Hos & pn & Hpn & Ht).
      repeat split; auto; [discriminate|].
      exists pn. split; [|exact Ht].
      change (removelast (part :: x :: p)) with (part :: removelast (x :: p)).
      cbn [lookup_path]. unfold add_child. rewrite children_with_children, find_child_app, E,
        String.eqb_refl. exact Hpn.
Qed.

(** C6: a node that [Get] creates has the threshold [Undefined] while
    [configured] is false, and otherwise the threshold of its parent, which is
    the parent's threshold from before the call when the parent existed. *)
Theorem Get_new_node_threshold st name st' p q n :
  Get st name = (st', p) ->
  lookup_path (Root st) q = None ->
  lookup_path (Root st') q = Some n ->
  q <> [] /\
  exists pn, lookup_path (Root st') (removelast q) = Some pn /\
    Threshold n = (if configured st then Threshold pn else Undefined) /\
    (forall pn0, lookup_path (Root st) (removelast q) = Some pn0 ->
                 Threshold pn = Threshold pn0).
Proof.
  unfold Get. intros H Hold Hnew. injection H as <- <-. simpl in Hnew |- *.
  destruct (get_walk_new _ _ _ _ _ _ Hnew Hold) as (Hq & _ & _ & _ & pn & Hpn & Ht).
  split; [exact Hq|]. exists pn. split; [exact Hpn|]. split; [exact Ht|].
  intros pn0 H0.
  destruct (get_walk_old (configured st) name (Split name ".") _ _ _ H0) as (n' & Hn' & Hf).
  rewrite Hpn in Hn'. injection Hn' as <-.
  unfold fields in Hf. injection Hf as _ Ht' _ _. exact Ht'.
Qed.

Lemma Get_new_node_threshold_witness :
  let st := mkState (mkLogger "root" Info false [] [("a", newLogger "a")]) true in
  lookup_path (Root st) ["a"; "b"] = None /\
  lookup_path (Root (fst (Get st "a.b"))) ["a"; "b"] =
    Some (mkLogger "a.b" Undefined false [] []) /\
  ["a"; "b"] <> [].
Proof.
  split; [reflexivity|]. split; [reflexivity|].
  destruct (Get_new_node_threshold
              (mkState (mkLogger "root" Info false [] [("a", newLogger "a")]) true)
              "a.b" (fst (Get (mkState (mkLogger "root" Info false []
                                         [("a", newLogger "a")]) true) "a.b"))
              ["a"; "b"] ["a"; "b"] (mkLogger "a.b" Undefined false [] [])
              eq_refl eq_refl eq_refl) as [Hq _].
  exact Hq.
Defined.

(** C7: the node [Get("a.b")] creates for ["a"] is named ["a.b"], and
    [Get("a")] later returns that very node: its [Name] is not the path
    ["a"] it is found under. *)
Theorem Get_intermediate_node_name :
  let st1 := fst (Get init_state "a.b") in
  snd (Get st1 "a") = ["a"] /\
  fst (Get st1 "a") = st1 /\
  option_map Name (lookup_path (Root st1) ["a"]) = Some "a.b".
Proof. vm_compute. repeat split. Qed.

Lemma default_below_Undefined l : In l default_levels -> l < Undefined.
Proof.
  unfold default_levels, Trace, Debug, Info, Notice, Warn, Error, Fatal, Undefined.
  intros Hl; simpl in Hl.
  repeat (destruct Hl as [<-|Hl]; [lia|]). destruct Hl.
Qed.

Lemma gets_keep_undefined names st :
  configured st = false ->
  (forall p n, lookup_path (Root st) p = Some n -> Threshold n = Undefined) ->
  configured (run_ops st (map OpGet names)) = false /\
  (forall p n, lookup_path (Root (run_ops st (map OpGet names))) p = Some n ->
               Threshold n = Undefined).
Proof.
  revert st; induction names as [|nm names IH]; intros st Hc Hu; [split; assumption|].
  apply IH; simpl; [exact Hc|].
  intros p n Hn.
  destruct (lookup_path (Root st) p) as [n0|] eqn:E.
  - destruct (get_walk_old (configured st) nm (Split nm ".") _ _ _ E) as (n' & Hn' & Hf).
    rewrite Hn in Hn'. injection Hn' as <-.
    unfold fields in Hf. injection Hf as _ Ht _ _. rewrite Ht. eapply Hu; eauto.
  - destruct (get_walk_new _ _ _ _ _ _ Hn E) as (_ & _ & _ & _ & pn & _ & Ht).
    rewrite Ht, Hc. reflexivity.
Qed.

(** C10: while only [Get] has run, every logger, [Root] included, has the
    threshold [Undefined] (0), above every default level, so a logging call
    at any default level returns at the threshold check. *)
Theorem unconfigured_loggers_silent names p n X s :
  lookup_path (Root (run_ops init_state (map OpGet names))) p = Some n ->
  In X default_levels ->
  Threshold n = Undefined /\
  Log (Root (run_ops init_state (map OpGet names))) p X s = None.
Proof.
  intros Hn HX.
  destruct (gets_keep_undefined names init_state eq_refl) as [_ Hu].
  { intros q m Hm. destruct q as [|k q]; simpl in Hm; [|discriminate].
    injection Hm as <-. reflexivity. }
  pose proof (Hu p n Hn) as Ht. split; [exact Ht|].
  unfold Log. rewrite Hn, Ht.
  pose proof (default_below_Undefined X HX).
  rewrite Z.gtb_ltb. destruct (Z.ltb_spec X Undefined); [reflexivity|lia].
Qed.

Lemma unconfigured_loggers_silent_witness :
  lookup_path (Root (run_ops init_state (map OpGet ["a.b"; "c"]))) ["a"; "b"] =
    Some (mkLogger "a.b" Undefined false [] []) /\
  In Fatal default_levels /\
  Log (Root (run_ops init_state (map OpGet ["a.b"; "c"]))) ["a"; "b"] Fatal "x" = None.
Proof.
  split; [reflexivity|]. split; [simpl; tauto|].
  exact (proj2 (unconfigured_loggers_silent ["a.b"; "c"] ["a"; "b"]
                  (mkLogger "a.b" Undefined false [] []) Fatal "x"
                  eq_refl ltac:(simpl; tauto))).
Defined.

(** ** [Configure] *)

Lemma find_child_map (g : Logger -> Logger) k cs :
  find_child k (map (fun '(k', c) => (k', g c)) cs) = option_map g (find_child k cs).
Proof.
  induction cs as [|[k1 c1] cs IH]; simpl; [reflexivity|].
  destruct (String.eqb k k1); [reflexivity|exact IH].
Qed.

Lemma last_filter_step q t L :
  last (filter defined_level (q :: t :: L)) Undefined =
  last (filter defined_level ((if Z.eqb t Undefined then q else t) :: L)) Undefined.
Proof.
  destruct (Z.eqb_spec t Undefined) as [->|Ht].
  - assert (Hd : defined_level Undefined = false) by reflexivity.
    cbn [filter]. rewrite Hd. reflexivity.
  - assert (Hd : defined_level t = true)
      by (unfold defined_level; rewrite (proj2 (Z.eqb_neq t Undefined) Ht); reflexivity).
    cbn [filter]. rewrite Hd. destruct (defined_level q); reflexivity.
Qed.

(** The node at [p] after [child.Configure()] with the parent threshold [q]:
    an [Undefined] threshold becomes the last defined one among [q] and the
    thresholds of the ancestors of [p]. *)
Lemma lookup_configure_child p q c n :
  lookup_path c p = Some n ->
  exists n', lookup_path (configure_child q c) p = Some n' /\
    Name n' = Name n /\ NoPropagate n' = NoPropagate n /\ outputs n' = outputs n /\
    Threshold n' =
      (if Z.eqb (Threshold n) Undefined
       then last (filter defined_level (q :: ancestors_thr c p)) Undefined
       else Threshold n).
Proof.
  revert q c n; induction p as [|k p IH]; intros q c n Hn.
  - injection Hn as <-. destruct c as [nm t np os cs].
    eexists; split; [reflexivity|].
    cbn [configure_child Name NoPropagate outputs Threshold ancestors_thr].
    repeat split.
    destruct (Z.eqb_spec t Undefined) as [->|]; [|reflexivity].
    cbn [filter]. unfold defined_level.
    destruct (Z.eqb_spec q Undefined) as [->|]; reflexivity.
  - destruct c as [nm t np os cs]. cbn [lookup_path children] in Hn.
    destruct (find_child k cs) as [c0|] eqn:E; [|discriminate].
    destruct (IH (if Z.eqb t Undefined then q else t) c0 n Hn)
      as (n' & Hn' & Hname & Hnp & Hos & Ht).
    exists n'. cbn [configure_child lookup_path children].
    rewrite find_child_map, E. cbn [option_map].
    repeat split; auto. rewrite Ht.
    cbn [ancestors_thr children]. rewrite E, last_filter_step. reflexivity.
Qed.

Lemma Configure_eq t : Configure t = configure_child Undefined t.
Proof.
  destruct t as [nm thr np os cs]. cbn [Configure configure_child].
  destruct (Z.eqb_spec thr Undefined) as [->|]; reflexivity.
Qed.

Lemma inherit_idem q t :
  (if Z.eqb (if Z.eqb t Undefined then q else t) Undefined
   then q else (if Z.eqb t Undefined then q else t)) =
  (if Z.eqb t Undefined then q else t).
Proof.
  destruct (Z.eqb_spec t Undefined) as [->|Ht].
  - destruct (Z.eqb_spec q Undefined); reflexivity.
  - rewrite (proj2 (Z.eqb_neq t Undefined) Ht). reflexivity.
Qed.

Lemma configure_child_idem c : forall q,
  configure_child q (configure_child q c) = configure_child q c.
Proof.
  induction c as [nm t np os cs Hcs] using Logger_ind'. intros q.
  cbn [configure_child]. rewrite inherit_idem. f_equal.
  rewrite map_map.
  induction Hcs as [|[k c] cs Hc Hcs IHcs]; [reflexivity|].
  cbn [map]. rewrite IHcs. simpl in Hc. rewrite Hc. reflexivity.
Qed.

(** C3: after [Root.Configure()], a node whose threshold was [Undefined]
    holds the threshold of its nearest ancestor with a threshold other than
    [Undefined], or stays [Undefined] when there is none; other nodes keep
    theirs. *)
Theorem Configure_inherits t p n :
  lookup_path t p = Some n ->
  exists n', lookup_path (Configure t) p = Some n' /\
    Threshold n' =
      (if Z.eqb (Threshold n) Undefined then nearest_configured t p else Threshold n).
Proof.
  intros Hn. rewrite Configure_eq.
  destruct (lookup_configure_child p Undefined t n Hn) as (n' & Hn' & _ & _ & _ & Ht).
  exists n'. split; [exact Hn'|]. rewrite Ht.
  unfold nearest_configured. cbn [filter]. unfold defined_level at 1.
  rewrite Z.eqb_refl. reflexivity.
Qed.

Lemma Configure_inherits_witness :
  let t := mkLogger "root" Info false []
             [("a", mkLogger "a" Undefined false []
                      [("b", mkLogger "a.b" Undefined false [] [])])] in
  lookup_path t ["a"; "b"] = Some (mkLogger "a.b" Undefined false [] []) /\
  option_map Threshold (lookup_path (Configure t) ["a"; "b"]) = Some Info.
Proof.
  split; [reflexivity|].
  destruct (Configure_inherits
              (mkLogger "root" Info false []
                 [("a", mkLogger "a" Undefined false []
                          [("b", mkLogger "a.b" Undefined false [] [])])])
              ["a"; "b"] (mkLogger "a.b" Undefined false [] []) eq_refl)
    as (n' & Hn' & Ht).
  rewrite Hn'. simpl. rewrite Ht. vm_compute. reflexivity.
Defined.

(** C8: running [Root.Configure()] a second time changes nothing. *)
Theorem Configure_idempotent t : Configure (Configure t) = Configure t.
Proof. rewrite !Configure_eq. apply configure_child_idem. Qed.

(** ** What the operations preserve *)

Open Scope list_scope.

Lemma frame_refl M t : frame M t t.
Proof.
  intros p n Hn. exists n. repeat split; auto. exists []. symmetry. apply app_nil_r.
Qed.

Lemma frame_trans M t1 t2 t3 : frame M t1 t2 -> frame M t2 t3 -> frame M t1 t3.
Proof.
  intros H12 H23 p n Hn.
  destruct (H12 p n Hn) as (n2 & Hn2 & Hname2 & [e2 Ho2] & Hnp2 & Hd2 & Ht2).
  destruct (H23 p n2 Hn2) as (n3 & Hn3 & Hname3 & [e3 Ho3] & Hnp3 & Hd3 & Ht3).
  exists n3. repeat split; auto.
  - congruence.
  - exists (e2 ++ e3). rewrite Ho3, Ho2, app_assoc. reflexivity.
  - intros Hm Hd. rewrite Ht3; auto.
Qed.

Lemma frame_mono (M M' : list string -> Prop) t t' :
  (forall p, M p -> M' p) -> frame M t t' -> frame M' t t'.
Proof.
  intros HM H p n Hn. destruct (H p n Hn) as (n' & Hn' & H1 & H2 & H3 & H4 & H5).
  exists n'. repeat split; auto.
Qed.

Lemma frame_get M cfg fn parts t : frame M t (get_walk cfg fn parts t).
Proof.
  intros p n Hn. destruct (get_walk_old cfg fn parts t p n Hn) as (n' & Hn' & Hf).
  unfold fields in Hf. injection Hf as H1 H2 H3 H4.
  exists n'. rewrite H1, H2, H3, H4. repeat split; auto.
  exists []. symmetry. apply app_nil_r.
Qed.

Lemma frame_update (M : list string -> Prop) (f : Logger -> Logger) q t :
  (forall l, children (f l) = children l) ->
  (forall n, Name (f n) = Name n /\
    (exists extra, outputs (f n) = outputs n ++ extra) /\
    (NoPropagate n = true -> NoPropagate (f n) = true) /\
    (Threshold n <> Undefined -> Threshold (f n) <> Undefined) /\
    (~ M q -> Threshold n <> Undefined -> Threshold (f n) = Threshold n)) ->
  frame M t (update_at q f t).
Proof.
  intros Hc Hf p n Hn.
  pose proof (lookup_update_at f Hc q t p) as Hp. rewrite Hn in Hp.
  destruct (lookup_path (update_at q f t) p) as [n'|] eqn:E;
    [|destruct (list_eq_dec string_dec p q); discriminate].
  exists n'. split; [reflexivity|].
  destruct (list_eq_dec string_dec p q) as [->|Hne];
    simpl in Hp; unfold fields in Hp; injection Hp as H1 H2 H3 H4;
    rewrite H1, H2, H3, H4.
  - apply Hf.
  - repeat split; auto. exists []. symmetry. apply app_nil_r.
Qed.

Lemma AddOutput_children o l : children (AddOutput o l) = children l.
Proof. destruct l; reflexivity. Qed.

Lemma set_NoPropagate_children b l : children (set_NoPropagate b l) = children l.
Proof. destruct l; reflexivity. Qed.

Lemma frame_setup_options M outs p keys root :
  frame M root (snd (setup_options outs p keys root)).
Proof.
  revert root; induction keys as [|key keys IH]; intros root; simpl; [apply frame_refl|].
  destruct (String.eqb key "nopropagate").
  - eapply frame_trans; [|apply IH].
    apply frame_update; [apply set_NoPropagate_children|].
    intros [nm t np os cs]; simpl. repeat split; auto.
    exists []. symmetry. apply app_nil_r.
  - destruct (assoc key outs) as [o|]; [|apply frame_refl].
    eapply frame_trans; [|apply IH].
    apply frame_update; [apply AddOutput_children|].
    intros [nm t np os cs]; simpl. repeat split; eauto.
Qed.

Lemma frame_Configure M t : frame M t (Configure t).
Proof.
  intros p n Hn. rewrite Configure_eq.
  destruct (lookup_configure_child p Undefined t n Hn)
    as (n' & Hn' & H1 & H2 & H3 & H4).
  exists n'. rewrite H1, H2, H3, H4. repeat split; auto.
  - exists []. symmetry. apply app_nil_r.
  - intros Hd. rewrite (proj2 (Z.eqb_neq _ _) Hd). exact Hd.
  - intros _ Hd. rewrite (proj2 (Z.eqb_neq _ _) Hd). reflexivity.
Qed.

Lemma ReverseLevelStrings_defined s l :
  ReverseLevelStrings s = Some l -> l <> Undefined.
Proof.
  unfold ReverseLevelStrings.
  repeat match goal with |- context [String.eqb ?a ?b] => destruct (String.eqb a b) end;
    intros H; try discriminate; injection H as <-; discriminate.
Qed.

Lemma frame_set_threshold (M : list string -> Prop) q level t :
  M q -> level <> Undefined -> frame M t (update_at q (set_Threshold level) t).
Proof.
  intros Hq Hl. apply frame_update; [apply set_Threshold_children|].
  intros [nm th np os cs]; simpl. repeat split; auto.
  - exists []. symmetry. apply app_nil_r.
  - intros Hn. contradiction.
Qed.

Lemma setup_entry_frame outs name v st :
  frame (fun p => p = entry_path name) (Root st) (Root (snd (setup_entry outs (name, v) st))) /\
  configured (snd (setup_entry outs (name, v) st)) = configured st.
Proof.
  unfold setup_entry.
  destruct (ReverseLevelStrings (ToUpper (hd "" (Split v ",")))) as [level|] eqn:El;
    [|split; [apply frame_refl|reflexivity]].
  pose proof (ReverseLevelStrings_defined _ _ El) as Hl.
  unfold entry_path. destruct (String.eqb name "root").
  - destruct (setup_options outs [] (tl (Split v ","))
                (update_at [] (set_Threshold level) (Root st))) as [r root3] eqn:E.
    simpl. split; [|reflexivity].
    eapply frame_trans; [apply frame_set_threshold; [reflexivity|exact Hl]|].
    replace root3 with (snd (setup_options outs [] (tl (Split v ","))
                (update_at [] (set_Threshold level) (Root st)))) by (rewrite E; reflexivity).
    apply frame_setup_options.
  - unfold Get. cbn [Root configured fst snd].
    set (t1 := get_walk (configured st) name (Split name ".") (Root st)).
    destruct (setup_options outs (Split name ".") (tl (Split v ","))
                (update_at (Split name ".") (set_Threshold level) t1)) as [r root3] eqn:E.
    simpl. split; [|reflexivity].
    eapply frame_trans; [apply frame_get|].
    eapply frame_trans; [apply frame_set_threshold; [reflexivity|exact Hl]|].
    replace root3 with (snd (setup_options outs (Split name ".") (tl (Split v ","))
                (update_at (Split name ".") (set_Threshold level) t1))) by (rewrite E; reflexivity).
    apply frame_setup_options.
Qed.

Lemma setup_loggers_frame outs ls st :
  frame (fun p => exists name v, In (name, v) ls /\ p = entry_path name)
    (Root st) (Root (snd (setup_loggers outs ls st))) /\
  configured (snd (setup_loggers outs ls st)) = configured st.
Proof.
  revert st; induction ls as [|[name v] ls IH]; intros st; cbn [setup_loggers];
    [split; [apply frame_refl|reflexivity]|].
  destruct (setup_entry_frame outs name v st) as [Hf Hc].
  destruct (setup_entry outs (name, v) st) as [[err|] st1] eqn:E;
    cbn [snd] in Hf, Hc |- *.
  - split; [|exact Hc].
    eapply frame_mono; [|exact Hf]. intros p ->. exists name, v. simpl. auto.
  - destruct (IH st1) as [Hf' Hc']. split; [|congruence].
    eapply frame_trans.
    + eapply frame_mono; [|exact Hf]. intros p ->. exists name, v. simpl. auto.
    + eapply frame_mono; [|exact Hf']. intros p (nm & w & Hin & ->). exists nm, w. simpl. auto.
Qed.

Lemma apply_frame reg c st : frame (mentioned c) (Root st) (Root (snd (apply reg c st))).
Proof.
  unfold apply.
  destruct (build_outputters reg c []) as [e|outs]; [apply frame_refl|].
  destruct (assoc "loggers" c) as [ls|] eqn:El; [|apply frame_refl].
  destruct (setup_loggers_frame outs ls st) as [Hf _].
  assert (HM : forall p, (exists name v, In (name, v) ls /\ p = entry_path name) ->
                         mentioned c p) by (intros p Hp; exists ls; auto).
  destruct (setup_loggers outs ls st) as [[e|] st1]; simpl in Hf |- *.
  - eapply frame_mono; [exact HM|exact Hf].
  - eapply frame_trans; [eapply frame_mono; [exact HM|exact Hf]|apply frame_Configure].
Qed.

Lemma build_outputters_error reg c acc e :
  build_outputters reg c acc = inl e ->
  exists key sec, In (key, sec) c /\ key <> "loggers" /\ key <> "" /\
                  newOutputterConfig reg sec = inl e.
Proof.
  revert acc; induction c as [|[key sec] c IH]; intros acc H; simpl in H; [discriminate|].
  destruct (String.eqb_spec key "loggers"), (String.eqb_spec key ""); simpl in H;
    try (destruct (IH _ H) as (k & s & Hin & H1 & H2 & H3);
         exists k, s; simpl; auto; fail).
  destruct (newOutputterConfig reg sec) eqn:E.
  - injection H as ->. exists key, sec. simpl. auto.
  - destruct (IH _ H) as (k & s & Hin & H1 & H2 & H3). exists k, s. simpl. auto.
Qed.

Lemma build_outputters_fails reg c acc key sec e0 :
  In (key, sec) c -> key <> "loggers" -> key <> "" ->
  newOutputterConfig reg sec = inl e0 ->
  exists e, build_outputters reg c acc = inl e.
Proof.
  intros Hin Hk1 Hk2 He0. revert acc.
  induction c as [|[k s] c IH]; intros acc; [destruct Hin|].
  destruct Hin as [Heq|Hin].
  - injection Heq as -> ->. simpl.
    rewrite (proj2 (String.eqb_neq _ _) Hk1), (proj2 (String.eqb_neq _ _) Hk2), He0.
    simpl. eauto.
  - simpl. destruct (negb (String.eqb k "loggers") && negb (String.eqb k ""))%bool;
      [destruct (newOutputterConfig reg s); eauto|]; apply IH; exact Hin.
Qed.

Lemma setup_loggers_fail outs ls st e st' :
  setup_loggers outs ls st = (Some e, st') ->
  exists pre bad post st1, ls = pre ++ bad :: post /\
    setup_loggers outs pre st = (None, st1) /\ setup_entry outs bad st1 = (Some e, st').
Proof.
  revert st; induction ls as [|ent ls IH]; intros st H; cbn [setup_loggers] in H;
    [discriminate|].
  destruct (setup_entry outs ent st) as [[err|] st1] eqn:E.
  - injection H as -> ->. exists [], ent, ls, st. auto.
  - destruct (IH st1 H) as (pre & bad & post & st2 & -> & Hpre & Hbad).
    exists (ent :: pre), bad, post, st2. simpl. rewrite E. auto.
Qed.

Lemma setup_entry_configured outs ent st :
  configured (snd (setup_entry outs ent st)) = configured st.
Proof. destruct ent as [name v]. apply setup_entry_frame. Qed.

(** C4: the errors of an output section ([TypeNotSpecified], [UnknownPlugin],
    a factory error, an invalid threshold); an output section that fails
    makes [apply] fail, and [apply] returns the error of a failing output
    section with the hierarchy untouched (no node
    written, no [Configure], [configured] unchanged); and any failure of
    [apply] leaves [configured] as it was and the state reached by the
    [loggers] entries processed before the failing one (kept, not undone),
    followed by the part of the failing entry done before its error, with no
    [Configure] pass. *)
Theorem apply_failure reg c st :
  (forall sec,
     (assoc "type" sec = None -> newOutputterConfig reg sec = inl ErrTypeNotSpecified) /\
     (forall name, assoc "type" sec = Some name -> reg name = None ->
        newOutputterConfig reg sec = inl (ErrUnknownPlugin name)) /\
     (forall name plugin e, assoc "type" sec = Some name -> reg name = Some plugin ->
        plugin sec = inl e -> newOutputterConfig reg sec = inl e) /\
     (forall name plugin o thresh, assoc "type" sec = Some name ->
        reg name = Some plugin -> plugin sec = inr o ->
        assoc "threshold" sec = Some thresh -> ReverseLevelStrings (ToUpper thresh) = None ->
        newOutputterConfig reg sec = inl (ErrInvalidThreshold thresh))) /\
  (forall key sec e0, In (key, sec) c -> key <> "loggers" -> key <> "" ->
     newOutputterConfig reg sec = inl e0 ->
     exists e, build_outputters reg c [] = inl e /\ apply reg c st = (Some e, st)) /\
  (forall e, build_outputters reg c [] = inl e ->
     apply reg c st = (Some e, st) /\
     exists key sec, In (key, sec) c /\ key <> "loggers" /\ key <> "" /\
                     newOutputterConfig reg sec = inl e) /\
  (forall e st', apply reg c st = (Some e, st') ->
     configured st' = configured st /\
     (st' = st \/
      exists outs ls pre bad post st1,
        build_outputters reg c [] = inr outs /\ assoc "loggers" c = Some ls /\
        ls = pre ++ bad :: post /\
        setup_loggers outs pre st = (None, st1) /\
        setup_entry outs bad st1 = (Some e, st'))).
Proof.
  split; [|split; [|split]].
  - intros sec. unfold newOutputterConfig.
    repeat split; intros; repeat match goal with H : _ = _ |- _ => rewrite H; clear H end;
      reflexivity.
  - intros key sec e0 Hin Hk1 Hk2 He0.
    destruct (build_outputters_fails reg c [] key sec e0 Hin Hk1 Hk2 He0) as [e He].
    exists e. split; [exact He|]. unfold apply; rewrite He; reflexivity.
  - intros e He. split; [unfold apply; rewrite He; reflexivity|].
    eapply build_outputters_error; exact He.
  - intros e st' H. unfold apply in H.
    destruct (build_outputters reg c []) as [e0|outs] eqn:Eb;
      [injection H as _ <-; auto|].
    destruct (assoc "loggers" c) as [ls|] eqn:El; [|injection H as _ <-; auto].
    destruct (setup_loggers outs ls st) as [[e1|] st1] eqn:Es; [|discriminate].
    injection H as -> <-.
    destruct (setup_loggers_fail _ _ _ _ _ Es) as (pre & bad & post & st2 & Hls & Hpre & Hbad).
    split.
    + pose proof (proj2 (setup_loggers_frame outs ls st)) as Hc. rewrite Es in Hc. exact Hc.
    + right. exists outs, ls, pre, bad, post, st2. auto.
Qed.

Lemma apply_failure_witness :
  build_outputters mock_registry bogus_config [] = inl (ErrUnknownPlugin "bogus") /\
  apply mock_registry bogus_config init_state = (Some (ErrUnknownPlugin "bogus"), init_state).
Proof.
  split; [reflexivity|].
  exact (proj1 (proj1 (proj2 (proj2 (apply_failure mock_registry bogus_config init_state)))
                  (ErrUnknownPlugin "bogus") eq_refl)).
Defined.

(** ** The outputs a successful [apply] appends *)

Lemma out_ext_refl t : out_ext t t (fun _ => []).
Proof. intros p n Hn. exists n. split; [exact Hn|]. symmetry. apply app_nil_r. Qed.

Lemma out_ext_trans t1 t2 t3 g1 g2 :
  out_ext t1 t2 g1 -> out_ext t2 t3 g2 -> out_ext t1 t3 (fun p => g1 p ++ g2 p).
Proof.
  intros H12 H23 p n Hn.
  destruct (H12 p n Hn) as (n2 & Hn2 & Ho2).
  destruct (H23 p n2 Hn2) as (n3 & Hn3 & Ho3).
  exists n3. split; [exact Hn3|]. rewrite Ho3, Ho2, app_assoc. reflexivity.
Qed.

Lemma out_ext_ext t t' g g' :
  (forall p, g p = g' p) -> out_ext t t' g -> out_ext t t' g'.
Proof.
  intros Hg H p n Hn. destruct (H p n Hn) as (n' & Hn' & Ho).
  exists n'. rewrite <- Hg. auto.
Qed.

Lemma out_ext_get cfg fn parts t : out_ext t (get_walk cfg fn parts t) (fun _ => []).
Proof.
  intros p n Hn. destruct (get_walk_old cfg fn parts t p n Hn) as (n' & Hn' & Hf).
  unfold fields in Hf. injection Hf as _ _ _ H4.
  exists n'. rewrite H4, app_nil_r. auto.
Qed.

Lemma out_ext_update (f : Logger -> Logger) q t es :
  (forall l, children (f l) = children l) ->
  (forall n, outputs (f n) = outputs n ++ es) ->
  out_ext t (update_at q f t) (fun p => if list_eq_dec string_dec p q then es else []).
Proof.
  intros Hc Hf p n Hn.
  pose proof (lookup_update_at f Hc q t p) as Hp. rewrite Hn in Hp.
  destruct (lookup_path (update_at q f t) p) as [n'|] eqn:E;
    [|destruct (list_eq_dec string_dec p q); discriminate].
  exists n'. split; [reflexivity|].
  destruct (list_eq_dec string_dec p q) as [->|Hne];
    simpl in Hp; unfold fields in Hp; injection Hp as _ _ _ H4; rewrite H4.
  - apply Hf.
  - symmetry. apply app_nil_r.
Qed.

Lemma out_ext_Configure t : out_ext t (Configure t) (fun _ => []).
Proof.
  intros p n Hn. rewrite Configure_eq.
  destruct (lookup_configure_child p Undefined t n Hn) as (n' & Hn' & _ & _ & H3 & _).
  exists n'. rewrite H3, app_nil_r. auto.
Qed.

Lemma setup_options_outputs outs p keys root root' :
  setup_options outs p keys root = (None, root') ->
  out_ext root root'
    (fun q => if list_eq_dec string_dec q p then entry_outputs outs keys else []).
Proof.
  revert root; induction keys as [|key keys IH]; intros root H; simpl in H.
  - injection H as <-. eapply out_ext_ext; [|apply out_ext_refl].
    intros q. destruct (list_eq_dec string_dec q p); reflexivity.
  - destruct (String.eqb key "nopropagate") eqn:Ek.
    + eapply out_ext_ext; [|eapply out_ext_trans;
        [apply (out_ext_update (set_NoPropagate true) p root []); [apply set_NoPropagate_children|]|exact (IH _ H)]].
      * intros q. unfold entry_outputs. cbn [flat_map]. rewrite Ek.
        destruct (list_eq_dec string_dec q p); reflexivity.
      * intros [nm t np os cs]. symmetry. apply app_nil_r.
    + destruct (assoc key outs) as [o|] eqn:Eo; [|discriminate].
      eapply out_ext_ext; [|eapply out_ext_trans;
        [apply (out_ext_update (AddOutput o) p root [o]); [apply AddOutput_children|]|exact (IH _ H)]].
      * intros q. unfold entry_outputs. cbn [flat_map]. rewrite Ek, Eo.
        destruct (list_eq_dec string_dec q p); reflexivity.
      * intros [nm t np os cs]. reflexivity.
Qed.

Lemma setup_entry_outputs outs name v st st' :
  setup_entry outs (name, v) st = (None, st') ->
  out_ext (Root st) (Root st')
    (fun q => if list_eq_dec string_dec q (entry_path name)
              then entry_outputs outs (tl (Split v ",")) else []).
Proof.
  unfold setup_entry.
  destruct (ReverseLevelStrings (ToUpper (hd "" (Split v ",")))) as [level|];
    [|discriminate].
  assert (Hthr : forall q t, out_ext t (update_at q (set_Threshold level) t) (fun _ => [])).
  { intros q t. eapply out_ext_ext; [|apply (out_ext_update _ q t [])].
    - intros r. cbv beta. destruct (list_eq_dec string_dec r q); reflexivity.
    - apply set_Threshold_children.
    - intros [nm th np os cs]. symmetry. apply app_nil_r. }
  unfold entry_path. destruct (String.eqb name "root").
  - destruct (setup_options outs [] (tl (Split v ","))
                (update_at [] (set_Threshold level) (Root st))) as [r root3] eqn:E.
    intros H. injection H as -> <-. cbn [Root].
    eapply out_ext_ext; [|eapply out_ext_trans; [apply Hthr|exact (setup_options_outputs _ _ _ _ _ E)]].
    reflexivity.
  - unfold Get. cbn [Root configured fst snd].
    set (t1 := get_walk (configured st) name (Split name ".") (Root st)).
    destruct (setup_options outs (Split name ".") (tl (Split v ","))
                (update_at (Split name ".") (set_Threshold level) t1)) as [r root3] eqn:E.
    intros H. injection H as -> <-. cbn [Root].
    eapply out_ext_ext; [|eapply out_ext_trans; [apply out_ext_get|eapply out_ext_trans;
      [apply Hthr|exact (setup_options_outputs _ _ _ _ _ E)]]].
    reflexivity.
Qed.

Lemma setup_loggers_outputs outs ls st st' :
  setup_loggers outs ls st = (None, st') ->
  out_ext (Root st) (Root st') (named_outputs outs ls).
Proof.
  revert st; induction ls as [|[name v] ls IH]; intros st H; cbn [setup_loggers] in H.
  - injection H as <-. eapply out_ext_ext; [|apply out_ext_refl]. reflexivity.
  - destruct (setup_entry outs (name, v) st) as [[err|] st1] eqn:E; [discriminate|].
    eapply out_ext_ext; [|eapply out_ext_trans;
      [exact (setup_entry_outputs _ _ _ _ _ E)|exact (IH _ H)]].
    reflexivity.
Qed.

Lemma build_outputters_from reg c acc outs :
  build_outputters reg c acc = inr outs ->
  forall key o, assoc key outs = Some o ->
  assoc key acc = Some o \/
  exists sec, In (key, sec) c /\ key <> "loggers" /\ key <> "" /\
              newOutputterConfig reg sec = inr o.
Proof.
  revert acc; induction c as [|[k sec] c IH]; intros acc H key o Ho; simpl in H.
  - injection H as ->. auto.
  - destruct (String.eqb_spec k "loggers"), (String.eqb_spec k ""); simpl in H;
      try (destruct (IH _ H key o Ho) as [Ha|(s & Hin & Hs)]; [left; exact Ha|];
           right; exists s; simpl; auto; fail).
    destruct (newOutputterConfig reg sec) as [e|out] eqn:En; [discriminate|].
    destruct (IH _ H key o Ho) as [Ha|(s & Hin & Hs)].
    + simpl in Ha. destruct (String.eqb_spec key k) as [->|Hne].
      * injection Ha as <-. right. exists sec. simpl. auto.
      * left. exact Ha.
    + right. exists s. simpl. auto.
Qed.

Lemma named_outputs_unmentioned c ls outs p :
  assoc "loggers" c = Some ls -> ~ mentioned c p -> named_outputs outs ls p = [].
Proof.
  intros Hls Hm. unfold named_outputs.
  assert (Hall : forall name v, In (name, v) ls -> p <> entry_path name).
  { intros name v Hin Heq. apply Hm. exists ls. split; [exact Hls|]. eauto. }
  clear Hls Hm. induction ls as [|[name v] ls IH]; [reflexivity|].
  cbn [flat_map]. destruct (list_eq_dec string_dec p (entry_path name)) as [He|_].
  - exfalso. eapply Hall; [left; reflexivity|exact He].
  - apply IH. intros nm w Hin. apply (Hall nm w). right. exact Hin.
Qed.

(** C9 (as amended): a successful [apply] keeps every existing node; it
    appends to its outputs exactly the outputters the entries of its
    [loggers] section name for that node, in order (each one built from an
    output section of the configuration), so a node it does not name keeps
    its outputs; it keeps a [NoPropagate] flag once set, resets no threshold
    to [Undefined], and changes a threshold other than [Undefined] only at a
    node its [loggers] section names; an [Undefined] threshold of a node it
    does not name may still be filled by the inheritance pass. *)
Theorem apply_keeps_earlier_state reg c st st' :
  apply reg c st = (None, st') ->
  exists outs ls,
    build_outputters reg c [] = inr outs /\ assoc "loggers" c = Some ls /\
    (forall key o, assoc key outs = Some o ->
       exists sec, In (key, sec) c /\ key <> "loggers" /\ key <> "" /\
                   newOutputterConfig reg sec = inr o) /\
    forall p n, lookup_path (Root st) p = Some n ->
    exists n', lookup_path (Root st') p = Some n' /\
      Name n' = Name n /\
      outputs n' = outputs n ++ named_outputs outs ls p /\
      (~ mentioned c p -> outputs n' = outputs n) /\
      (NoPropagate n = true -> NoPropagate n' = true) /\
      (Threshold n <> Undefined -> Threshold n' <> Undefined) /\
      (~ mentioned c p -> Threshold n <> Undefined -> Threshold n' = Threshold n).
Proof.
  intros H. pose proof (apply_frame reg c st) as Hf. rewrite H in Hf. cbn [snd] in Hf.
  unfold apply in H.
  destruct (build_outputters reg c []) as [e|outs] eqn:Eb; [discriminate|].
  destruct (assoc "loggers" c) as [ls|] eqn:El; [|discriminate].
  destruct (setup_loggers outs ls st) as [[e|] st1] eqn:Es; [discriminate|].
  injection H as <-.
  assert (Ho : out_ext (Root st) (Configure (Root st1))
                 (fun p => named_outputs outs ls p ++ [])).
  { eapply out_ext_trans; [exact (setup_loggers_outputs _ _ _ _ Es)|apply out_ext_Configure]. }
  exists outs, ls. split; [reflexivity|]. split; [reflexivity|]. split.
  - intros key o Hk. destruct (build_outputters_from _ _ _ _ Eb key o Hk) as [Ha|Hs];
      [discriminate|exact Hs].
  - intros p n Hn.
    destruct (Hf p n Hn) as (n' & Hn' & H1 & _ & H3 & H4 & H5).
    destruct (Ho p n Hn) as (n2 & Hn2 & Ho2).
    cbn [Root] in Hn'. rewrite Hn' in Hn2. injection Hn2 as <-.
    rewrite app_nil_r in Ho2.
    exists n'. repeat split; auto.
    intros Hm. rewrite Ho2, (named_outputs_unmentioned c ls outs p El Hm). apply app_nil_r.
Qed.

Lemma config_root_debug_mentions_root p : mentioned config_root_debug p -> p = [].
Proof.
  intros (ls & Hls & name & v & Hin & ->). simpl in Hls. injection Hls as <-.
  destruct Hin as [Hin|[]]. injection Hin as <- _. reflexivity.
Qed.

Lemma apply_keeps_earlier_state_witness :
  fst (apply mock_registry config_root_debug state_after_first) = None /\
  lookup_path (Root state_after_first) ["a"] = Some (mkLogger "a" Info false [] []) /\
  exists n', lookup_path (Root (snd (apply mock_registry config_root_debug state_after_first)))
               ["a"] = Some n' /\ Threshold n' = Info.
Proof.
  split; [reflexivity|]. split; [reflexivity|].
  destruct (apply_keeps_earlier_state mock_registry config_root_debug state_after_first
              (snd (apply mock_registry config_root_debug state_after_first)) eq_refl)
    as (outs & ls & _ & _ & _ & Hall).
  destruct (Hall ["a"] (mkLogger "a" Info false [] []) eq_refl)
    as (n' & Hn' & _ & _ & _ & _ & _ & Ht).
  exists n'. split; [exact Hn'|].
  apply Ht; [|vm_compute; discriminate].
  intros Hm. apply config_root_debug_mentions_root in Hm. discriminate.
Defined.

(** C9: the second [apply] changes the threshold of ["b"], a node its
    [loggers] section does not name (from [Undefined] to [Debug]). *)
Lemma apply_changes_unmentioned_threshold :
  fst (apply mock_registry config_a_info (fst (Get init_state "b"))) = None /\
  fst (apply mock_registry config_root_debug state_after_first) = None /\
  ~ mentioned config_root_debug ["b"] /\
  option_map Threshold (lookup_path (Root state_after_first) ["b"]) = Some Undefined /\
  option_map Threshold
    (lookup_path (Root (snd (apply mock_registry config_root_debug state_after_first))) ["b"])
  = Some Debug.
Proof.
  split; [reflexivity|]. split; [reflexivity|]. split.
  - intros Hm. apply config_root_debug_mentions_root in Hm. discriminate.
  - split; vm_compute; reflexivity.
Qed.

(** ** Node identity *)

Lemma frame_paths M t t' : frame M t t' -> paths_incl t t'.
Proof.
  intros H p Hp. destruct (lookup_path t p) as [n|] eqn:E; [|congruence].
  destruct (H p n E) as (n' & Hn' & _). congruence.
Qed.

Lemma paths_incl_trans t1 t2 t3 : paths_incl t1 t2 -> paths_incl t2 t3 -> paths_incl t1 t3.
Proof. unfold paths_incl. auto. Qed.

Lemma paths_incl_children (f : Logger -> Logger) l :
  children (f l) = children l -> paths_incl l (f l).
Proof.
  intros Hc p. destruct p as [|k p]; cbn [lookup_path]; [intros _; discriminate|]. rewrite Hc. auto.
Qed.

Lemma paths_incl_update (f : Logger -> Logger) q t :
  (forall l, paths_incl l (f l)) -> paths_incl t (update_at q f t).
Proof.
  intros Hf. revert t; induction q as [|k q IH]; intros t; simpl; [apply Hf|].
  destruct (find_child k (children t)) as [c|] eqn:E; [|intros p Hp; exact Hp].
  intros p Hp. destruct p as [|k2 p]; [discriminate|]. simpl in Hp |- *.
  unfold set_child. rewrite children_with_children, find_child_replace.
  destruct (String.eqb_spec k2 k) as [->|Hne]; [|exact Hp].
  rewrite E in Hp |- *. simpl. apply IH. exact Hp.
Qed.

Lemma run_op_paths st o : paths_incl (Root st) (Root (run_op st o)).
Proof.
  destruct o as [name|p lvl|p b|p o|p|reg c|]; simpl.
  - apply (frame_paths (fun _ => False)). apply frame_get.
  - apply paths_incl_update. intros l. apply paths_incl_children, set_Threshold_children.
  - apply paths_incl_update. intros l. apply paths_incl_children, set_NoPropagate_children.
  - apply paths_incl_update. intros l. apply paths_incl_children, AddOutput_children.
  - apply paths_incl_update. intros l. apply (frame_paths (fun _ => False)), frame_Configure.
  - apply (frame_paths (mentioned c)). apply apply_frame.
  - intros q Hq. exact Hq.
Qed.

Lemma run_ops_paths ops st : paths_incl (Root st) (Root (run_ops st ops)).
Proof.
  unfold run_ops. revert st; induction ops as [|o ops IH]; intros st; simpl.
  - intros q Hq. exact Hq.
  - eapply paths_incl_trans; [apply run_op_paths|apply IH].
Qed.

(** C5: [Get] of a name returns the node at its path, which then exists; a
    [Get] of a name whose path already exists creates nothing and returns that
    node; so after any later operations (other [Get]s, threshold, flag and
    output writes, [Configure], [apply]) the same name gives the same node. *)
Theorem Get_same_node st name st1 p :
  Get st name = (st1, p) ->
  lookup_path (Root st1) p <> None /\
  (forall st0, lookup_path (Root st0) (Split name ".") <> None ->
     Get st0 name = (st0, Split name ".")) /\
  (forall ops, Get (run_ops st1 ops) name = (run_ops st1 ops, p)).
Proof.
  intros H.
  assert (Hsame : forall st0, lookup_path (Root st0) (Split name ".") <> None ->
                              Get st0 name = (st0, Split name ".")).
  { intros [t cfg] Hp. unfold Get. simpl in *. rewrite get_walk_exists by exact Hp.
    reflexivity. }
  unfold Get in H. injection H as <- <-. simpl.
  pose proof (get_walk_path (configured st) name (Split name ".") (Root st)) as Hp.
  split; [exact Hp|]. split; [exact Hsame|].
  intros ops. apply Hsame. apply run_ops_paths. exact Hp.
Qed.

Lemma Get_same_node_witness :
  Get init_state "a.b" = (fst (Get init_state "a.b"), ["a"; "b"]) /\
  Get (run_ops (fst (Get init_state "a.b")) [OpGet "a"; OpSetThreshold ["a"] Info])
    "a.b" =
  (run_ops (fst (Get init_state "a.b")) [OpGet "a"; OpSetThreshold ["a"] Info],
   ["a"; "b"]).
Proof.
  split; [reflexivity|].
  exact (proj2 (proj2 (Get_same_node init_state "a.b" (fst (Get init_state "a.b"))
                          ["a"; "b"] eq_refl))
               [OpGet "a"; OpSetThreshold ["a"] Info]).
Defined.

(** ** Further properties of the package *)

Open Scope string_scope.
Open Scope Z_scope.

(** X4: the outputter [newOutputterConfig] builds for a section with a
    [threshold] option drops every message below that level and passes the
    others to the plugin's outputter. *)
Theorem newOutputterConfig_threshold_filters reg sec name plugin o0 o thresh :
  assoc "type" sec = Some name -> reg name = Some plugin -> plugin sec = inr o0 ->
  assoc "threshold" sec = Some thresh ->
  newOutputterConfig reg sec = inr o ->
  exists lvl, ReverseLevelStrings (ToUpper thresh) = Some lvl /\
    forall msg, Output o msg = if Z.ltb (MsgLevel msg) lvl then [] else Output o0 msg.
Proof.
  intros Ht Hr Hp Hth H. unfold newOutputterConfig in H. rewrite Ht, Hr, Hp, Hth in H.
  destruct (ReverseLevelStrings (ToUpper thresh)) as [lvl|]; [|discriminate].
  injection H as <-. exists lvl. split; [reflexivity|].
  intros msg. simpl. rewrite Z.gtb_ltb. reflexivity.
Qed.

(** X5: two nested [ThresholdOutputter]s let through the same messages as one
    with the higher of the two thresholds. *)
Theorem ThresholdOutputter_compose t1 t2 o msg :
  Output (ThresholdOutputter t1 (ThresholdOutputter t2 o)) msg =
  Output (ThresholdOutputter (Z.max t1 t2) o) msg.
Proof.
  simpl. rewrite !Z.gtb_ltb.
  destruct (Z.ltb_spec (MsgLevel msg) t1), (Z.ltb_spec (MsgLevel msg) t2),
    (Z.ltb_spec (MsgLevel msg) (Z.max t1 t2)); try reflexivity; lia.
Qed.

Lemma split_aux_nonempty sep s cur : split_aux sep s cur <> [].
Proof.
  revert cur; induction s as [|c s IH]; intros cur; simpl; [discriminate|].
  destruct (Ascii.eqb c sep); [discriminate|apply IH].
Qed.

Lemma string_app_assoc (a b c : string) : (a ++ b) ++ c = a ++ (b ++ c).
Proof. induction a as [|x a IH]; simpl; [reflexivity|rewrite IH; reflexivity]. Qed.

Lemma concat_split_aux sep s cur :
  String.concat (String sep "") (split_aux sep s cur) = cur ++ s.
Proof.
  revert cur; induction s as [|c s IH]; intros cur; simpl.
  - induction cur as [|x cur IHc]; simpl; [reflexivity|rewrite <- IHc; reflexivity].
  - destruct (Ascii.eqb_spec c sep) as [->|Hne].
    + destruct (split_aux sep s "") as [|x l] eqn:E; [exfalso; eapply split_aux_nonempty; eauto|].
      change (String.concat (String sep "") (cur :: x :: l))
        with (cur ++ (String sep "" ++ String.concat (String sep "") (x :: l))).
      rewrite <- E, IH. reflexivity.
    + rewrite IH, string_app_assoc. reflexivity.
Qed.

(** X8: the path [Get] walks is never empty, so [Get] never returns [Root]
    (not even for [""] or ["root"]); its parts joined with ["."] give back
    the name, so two different names never lead to the same logger. *)
Theorem Get_path_name st name st2 name2 :
  snd (Get st name) <> [] /\
  String.concat "." (snd (Get st name)) = name /\
  (snd (Get st2 name2) = snd (Get st name) -> name2 = name).
Proof.
  assert (Hc : forall n, String.concat "." (snd (Get st n)) = n)
    by (intros n; apply concat_split_aux).
  assert (Hc2 : forall n, snd (Get st2 n) = snd (Get st n)) by reflexivity.
  split; [apply split_aux_nonempty|]. split; [apply Hc|].
  intros H. rewrite <- (Hc name2), <- Hc2, H. apply Hc.
Qed.

Lemma Get_path_name_witness :
  snd (Get init_state "a.b") <> [] /\ (snd (Get init_state "a.b") = snd (Get init_state "a.b") -> "a.b" = "a.b").
Proof.
  destruct (Get_path_name init_state "a.b" init_state "a.b") as (H1 & _ & H3).
  split; [exact H1|exact H3].
Defined.

Lemma Trace_least X : In X default_levels -> Trace <= X.
Proof.
  unfold default_levels, Trace, Debug, Info, Notice, Warn, Error, Fatal.
  intros HX; simpl in HX. repeat (destruct HX as [<-|HX]; [lia|]). destruct HX.
Qed.

Lemma children_AddOutput o l : children (AddOutput o l) = children l.
Proof. destruct l; reflexivity. Qed.

Lemma lookup_same_children l l' p :
  children l' = children l -> p <> [] -> lookup_path l' p = lookup_path l p.
Proof. intros H Hp. destruct p as [|k p]; [congruence|]. simpl. rewrite H. reflexivity. Qed.

(** X6: [DefaultSetup] writes [Root] only and runs no [Configure]: a logger
    obtained before it is left as it was, and if its threshold is
    [Undefined] it still drops every message at a default level. *)
Theorem DefaultSetup_earlier_loggers o st p n :
  p <> [] -> lookup_path (Root st) p = Some n ->
  lookup_path (Root (DefaultSetup o st)) p = Some n /\
  (Threshold n = Undefined ->
   forall X s, In X default_levels -> Log (Root (DefaultSetup o st)) p X s = None).
Proof.
  intros Hp Hn.
  assert (Hl : lookup_path (Root (DefaultSetup o st)) p = Some n).
  { rewrite <- Hn. apply lookup_same_children; [|exact Hp].
    simpl. rewrite children_AddOutput, set_Threshold_children. reflexivity. }
  split; [exact Hl|]. intros Ht X s HX.
  unfold Log. rewrite Hl, Ht, Z.gtb_ltb.
  pose proof (default_below_Undefined X HX).
  destruct (Z.ltb_spec X Undefined); [reflexivity|lia].
Qed.

(** The nodes [get_walk] creates below a node whose first child on the
    path is missing. *)
Lemma get_walk_fresh fn rest c :
  match rest with [] => True | k :: _ => find_child k (children c) = None end ->
  forall q r, q <> [] -> (q ++ r)%list = rest ->
  exists n, lookup_path (get_walk true fn rest c) q = Some n /\
    Threshold n = Threshold c /\ NoPropagate n = false /\ outputs n = [].
Proof.
  revert c; induction rest as [|k rest IH]; intros c H q r Hq Hqr.
  - destruct q; [congruence|discriminate].
  - destruct q as [|k' q]; [congruence|]. injection Hqr as -> Hqr.
    cbn [get_walk]. rewrite H.
    set (c1 := set_Threshold (Threshold c) (newLogger fn)).
    cbn [lookup_path]. unfold add_child.
    rewrite children_with_children, find_child_app, H, String.eqb_refl.
    destruct q as [|x q].
    + cbn [lookup_path]. eexists; split; [reflexivity|].
      pose proof (get_walk_fields true fn rest c1) as Hf.
      unfold fields in Hf. injection Hf as _ Ht Hnp Hos. rewrite Ht, Hnp, Hos.
      subst c1. destruct c; auto.
    + destruct (IH c1 ltac:(destruct rest; reflexivity) (x :: q) r ltac:(discriminate) Hqr)
        as (n & Hn & Ht & Hnp & Hos).
      exists n. repeat split; auto; rewrite Ht; subst c1; destruct c; reflexivity.
Qed.

Lemma doLog_rev_fresh T rp m :
  (forall s r, rp = (s ++ r)%list -> r <> [] ->
     exists n, lookup_path T (rev r) = Some n /\ NoPropagate n = false /\ outputs n = []) ->
  doLog_rev T rp m = map (fun o => (o, m)) (outputs T).
Proof.
  induction rp as [|x rp IH]; intros H.
  - simpl. destruct (NoPropagate T); simpl; apply app_nil_r.
  - destruct (H [] (x :: rp) eq_refl ltac:(discriminate)) as (n & Hn & Hnp & Hos).
    cbn [doLog_rev]. rewrite Hn, Hnp, Hos. simpl.
    apply IH. intros s r Hs Hr. apply (H (x :: s) r); [rewrite Hs; reflexivity|exact Hr].
Qed.

(** X7: a logger first obtained with [Get] after [DefaultSetup], on a new
    first name part, logs messages at every default level to the outputs of
    [Root], the [stderr] outputter last. *)
Theorem DefaultSetup_then_Get o st name X s :
  find_child (hd "" (Split name ".")) (children (Root st)) = None ->
  In X default_levels ->
  Log (Root (fst (Get (DefaultSetup o st) name))) (snd (Get (DefaultSetup o st) name)) X s =
  Some (mkMessage X s (Split name "."),
        map (fun o' => (o', mkMessage X s (Split name "."))) (outputs (Root st) ++ [o])).
Proof.
  intros Hfresh HX.
  set (R1 := Root (DefaultSetup o st)).
  assert (Hch : children R1 = children (Root st))
    by (subst R1; simpl; rewrite children_AddOutput, set_Threshold_children; reflexivity).
  assert (HthR : Threshold R1 = Trace) by (subst R1; simpl; destruct (Root st); reflexivity).
  assert (HosR : outputs R1 = (outputs (Root st) ++ [o])%list)
    by (subst R1; simpl; destruct (Root st); reflexivity).
  unfold Get. cbn [fst snd Root configured]. fold R1.
  replace (configured (DefaultSetup o st)) with true by reflexivity.
  set (p := Split name ".").
  set (T := get_walk true name p R1).
  assert (Hf : forall q r, q <> [] -> (q ++ r)%list = p ->
     exists n, lookup_path T q = Some n /\
       Threshold n = Trace /\ NoPropagate n = false /\ outputs n = []).
  { intros q r Hq Hqr. rewrite <- HthR. apply (get_walk_fresh name p R1) with (r := r); auto.
    subst p. destruct (Split name ".") as [|k rest] eqn:E;
      [exfalso; eapply split_aux_nonempty; exact E|].
    rewrite Hch. exact Hfresh. }
  assert (Hp : p <> []) by apply split_aux_nonempty.
  destruct (Hf p [] Hp (app_nil_r p)) as (n & Hn & Ht & _ & _).
  unfold Log. rewrite Hn, Ht, Z.gtb_ltb.
  pose proof (Trace_least X HX).
  destruct (Z.ltb_spec X Trace); [lia|].
  unfold doLog. rewrite doLog_rev_fresh.
  - subst T. pose proof (get_walk_fields true name p R1) as Hfl.
    unfold fields in Hfl. injection Hfl as _ _ _ Hos. rewrite Hos, HosR. reflexivity.
  - intros s0 r Hs0 Hr.
    destruct (Hf (rev r) (rev s0)) as (m & Hm & _ & Hnp & Hos).
    + intros He. apply Hr. rewrite <- (rev_involutive r), He. reflexivity.
    + rewrite <- rev_app_distr, <- Hs0, rev_involutive. reflexivity.
    + exists m. auto.
Qed.

Lemma str_drop_app a b : str_drop (String.length a) (a ++ b) = b.
Proof. induction a as [|c a IH]; simpl; auto. Qed.

Lemma length_app (a b : string) : String.length (a ++ b) = (String.length a + String.length b)%nat.
Proof. induction a as [|c a IH]; simpl; auto. Qed.

Lemma template_ok_app_nd a x : no_dollar a -> template_ok (a ++ x) = template_ok x.
Proof.
  induction a as [|c a IH]; intros H; simpl; [reflexivity|].
  inversion H as [|? ? Hc Ha]; subst.
  rewrite (proj2 (Ascii.eqb_neq c "$") Hc). apply IH, Ha.
Qed.

Lemma letter_not_dollar c : is_letter c = true -> c <> "$"%char.
Proof. intros H ->. discriminate. Qed.

Lemma letters_split r :
  exists x, r = (letters_prefix r ++ x) /\ no_dollar (letters_prefix r).
Proof.
  induction r as [|c r (x & Hx & Hn)]; simpl.
  - exists "". split; [reflexivity|constructor].
  - destruct (is_letter c) eqn:Hl.
    + exists x. split; [simpl; rewrite <- Hx; reflexivity|].
      constructor; [apply letter_not_dollar, Hl|exact Hn].
    + exists (String c r). split; [reflexivity|constructor].
Qed.

Lemma nondollar_split r :
  exists x, r = (nondollar_prefix r ++ x) /\ no_dollar (nondollar_prefix r).
Proof.
  induction r as [|c r (x & Hx & Hn)]; simpl.
  - exists "". split; [reflexivity|constructor].
  - destruct (Ascii.eqb_spec c "$") as [->|Hc].
    + exists (String "$" r). split; [reflexivity|constructor].
    + exists x. split; [simpl; rewrite <- Hx; reflexivity|].
      constructor; [exact Hc|exact Hn].
Qed.

(** One round of the loop of [NewBasicFormatter] on a non-empty rest. *)
Lemma FindString_step s :
  s <> "" ->
  (templateRegex_FindString s = "" /\ template_ok s = false) \/
  (exists x, templateRegex_FindString s <> "" /\
     s = (templateRegex_FindString s ++ x) /\
     str_drop (String.length (templateRegex_FindString s)) s = x /\
     (String.length x < String.length s)%nat /\
     template_ok s = template_ok x).
Proof.
  intros Hs. destruct s as [|c r]; [congruence|].
  destruct (Ascii.eqb_spec c "$") as [->|Hc].
  - destruct r as [|c2 r2]; [left; split; reflexivity|].
    destruct (is_letter c2) eqn:Hl.
    + right. destruct (letters_split r2) as (x & Hx & Hn).
      assert (HF : templateRegex_FindString (String "$" (String c2 r2)) =
                   String "$" (String c2 (letters_prefix r2)))
        by (cbn [templateRegex_FindString letters_prefix]; rewrite Hl; reflexivity).
      rewrite HF. exists x.
      assert (Hs' : String "$" (String c2 r2) = String "$" (String c2 (letters_prefix r2)) ++ x)
        by (simpl; rewrite <- Hx; reflexivity).
      split; [discriminate|]. split; [exact Hs'|]. split.
      * rewrite Hs' at 1. apply str_drop_app.
      * split.
        -- rewrite Hx. simpl. rewrite length_app. lia.
        -- cbn [template_ok]. rewrite (proj2 (Ascii.eqb_neq c2 "$") (letter_not_dollar _ Hl)).
           rewrite Hl. simpl. rewrite Hx at 1. apply template_ok_app_nd, Hn.
    + destruct (Ascii.eqb_spec c2 "$") as [->|Hc2].
      * right. exists r2. repeat split; try discriminate; simpl; auto.
      * left. cbn [templateRegex_FindString letters_prefix template_ok].
        rewrite Hl, (proj2 (Ascii.eqb_neq c2 "$") Hc2). split; reflexivity.
  - right. destruct (nondollar_split r) as (x & Hx & Hn).
    assert (HF : templateRegex_FindString (String c r) = String c (nondollar_prefix r)).
    { unfold templateRegex_FindString. rewrite (proj2 (Ascii.eqb_neq c "$") Hc).
      cbn [nondollar_prefix]. rewrite (proj2 (Ascii.eqb_neq c "$") Hc). reflexivity. }
    rewrite HF. exists x.
    assert (Hs' : String c r = String c (nondollar_prefix r) ++ x)
      by (simpl; rewrite <- Hx; reflexivity).
    split; [discriminate|]. split; [exact Hs'|]. split.
    + rewrite Hs' at 1. apply str_drop_app.
    + split.
      * rewrite Hx. simpl. rewrite length_app. lia.
      * cbn [template_ok]. rewrite (proj2 (Ascii.eqb_neq c "$") Hc).
        rewrite Hx at 1. apply template_ok_app_nd, Hn.
Qed.

Lemma template_loop_none fuel s :
  (String.length s < fuel)%nat ->
  (template_loop fuel s = None <-> template_ok s = false).
Proof.
  revert s; induction fuel as [|f IH]; intros s Hlen; [lia|].
  cbn [template_loop].
  destruct s as [|c r]; [simpl; split; discriminate|].
  cbn [String.length Nat.eqb].
  destruct (FindString_step (String c r) ltac:(discriminate))
    as [[HF Hok] | (x & Hm & Hs & Hd & Hl & Hok)].
  - rewrite HF, Hok. simpl. split; reflexivity.
  - rewrite (proj2 (String.eqb_neq _ _) Hm), Hd, Hok.
    rewrite <- (IH x) by lia.
    destruct (template_loop f x); split; congruence.
Qed.

Lemma concat_empty_cons (a : string) l :
  String.concat "" (a :: l) = a ++ String.concat "" l.
Proof.
  destruct l as [|b l]; simpl; [|reflexivity].
  induction a as [|c a IH]; simpl; [reflexivity|rewrite <- IH; reflexivity].
Qed.

Lemma template_part_nondollar c x :
  c <> "$"%char -> template_part (String c x) = mkTemplatePart (String c x) false.
Proof.
  intros Hc. unfold template_part.
  assert (E : String.eqb (String c x) "$$" = false)
    by (apply String.eqb_neq; intros H; injection H as H _; congruence).
  rewrite E. destruct c as [[] [] [] [] [] [] [] []]; try reflexivity.
  exfalso; apply Hc; reflexivity.
Qed.

Lemma string_app_nil (a : string) : a ++ "" = a.
Proof. induction a as [|c a IH]; simpl; [reflexivity|rewrite IH; reflexivity]. Qed.

Lemma unparse_cons p ps : unparse (p :: ps) = unparse [p] ++ unparse ps.
Proof. unfold unparse. cbn [map]. rewrite concat_empty_cons. reflexivity. Qed.

Lemma template_part_unparse m :
  m <> "" -> unparse [template_part m] = m.
Proof.
  intros Hm. destruct m as [|c x]; [congruence|].
  destruct (Ascii.eqb_spec c "$") as [->|Hc].
  - unfold template_part.
    destruct (String.eqb_spec (String "$" x) "$$") as [E|E]; [rewrite E; reflexivity|].
    reflexivity.
  - rewrite template_part_nondollar by exact Hc.
    unfold unparse. cbn [map String.concat Var Str].
    assert (E' : String.eqb (String c x) "$" = false)
      by (apply String.eqb_neq; intros H; injection H as H _; congruence).
    rewrite E'. reflexivity.
Qed.

Lemma template_loop_unparse fuel s parts :
  template_loop fuel s = Some parts -> unparse parts = s.
Proof.
  revert s parts; induction fuel as [|f IH]; intros s parts H; [discriminate|].
  cbn [template_loop] in H.
  destruct s as [|c r]; [injection H as <-; reflexivity|].
  cbn [String.length Nat.eqb] in H.
  destruct (FindString_step (String c r) ltac:(discriminate))
    as [[HF _] | (x & Hm & Hs & Hd & _ & _)]; [rewrite HF in H; discriminate|].
  rewrite (proj2 (String.eqb_neq _ _) Hm), Hd in H.
  destruct (template_loop f x) as [ps|] eqn:E; [|discriminate].
  injection H as <-. rewrite unparse_cons, template_part_unparse by exact Hm.
  rewrite (IH x ps E). symmetry. exact Hs.
Qed.

(** X9: [NewBasicFormatter] panics exactly on the templates with a [$] that is
    neither followed by a letter nor paired with a second [$]. *)
Theorem NewBasicFormatter_panics tmpl :
  NewBasicFormatter tmpl = None <-> template_ok tmpl = false.
Proof.
  unfold NewBasicFormatter. rewrite <- (template_loop_none (S (String.length tmpl)) tmpl) by lia.
  destruct (template_loop (S (String.length tmpl)) tmpl); split; congruence.
Qed.

(** X10: writing the parts [NewBasicFormatter] produces back as text (a
    variable as [$name], a literal [$] as [$$]) gives the template. *)
Theorem NewBasicFormatter_roundtrip tmpl b :
  NewBasicFormatter tmpl = Some b -> unparse (template b) = tmpl.
Proof.
  unfold NewBasicFormatter. destruct (template_loop (S (String.length tmpl)) tmpl) as [parts|] eqn:E;
    [|discriminate].
  intros H. injection H as <-. exact (template_loop_unparse _ _ _ E).
Qed.

Lemma NewBasicFormatter_roundtrip_witness :
  exists b, NewBasicFormatter "[$level] $$ $msg" = Some b /\ unparse (template b) = "[$level] $$ $msg".
Proof.
  eexists. split; [reflexivity|]. apply NewBasicFormatter_roundtrip. reflexivity.
Defined.

(** X11: a template without [$] is accepted, and [Format] returns it unchanged
    for every message whose [Logger] is not nil; a message with a nil
    [Logger], or a nil message, makes [Format] panic. *)
Theorem Format_literal_template tmpl :
  ~ In "$"%char (list_ascii_of_string tmpl) ->
  exists b, NewBasicFormatter tmpl = Some b /\
    (forall m name, FLogger m = Some name -> Format b (Some m) = Some tmpl) /\
    (forall m, FLogger m = None -> Format b (Some m) = None) /\
    Format b None = None.
Proof.
  intros Hd.
  assert (Hnd : no_dollar tmpl).
  { unfold no_dollar. apply Forall_forall. intros c Hc ->. contradiction. }
  destruct tmpl as [|c r].
  - eexists. split; [reflexivity|].
    unfold Format, getVars. split; [|split; [|reflexivity]]; intros m;
      [intros name|]; intros Hl; rewrite Hl; reflexivity.
  - inversion Hnd as [|? ? Hc Hr]; subst.
    assert (Hn : nondollar_prefix r = r).
    { clear Hd Hnd Hc. induction r as [|c' r IH]; [reflexivity|].
      inversion Hr as [|? ? Hc' Hr']; subst. simpl.
      rewrite (proj2 (Ascii.eqb_neq c' "$") Hc'), IH by exact Hr'. reflexivity. }
    assert (HF : templateRegex_FindString (String c r) = String c r).
    { unfold templateRegex_FindString. rewrite (proj2 (Ascii.eqb_neq c "$") Hc).
      cbn [nondollar_prefix]. rewrite (proj2 (Ascii.eqb_neq c "$") Hc), Hn. reflexivity. }
    pose proof (template_part_nondollar c r Hc) as Hp.
    unfold NewBasicFormatter. cbn [template_loop String.length Nat.eqb].
    rewrite HF.
    assert (E : String.eqb (String c r) "" = false) by reflexivity. rewrite E.
    replace (str_drop (String.length (String c r)) (String c r)) with ""
      by (rewrite <- (string_app_nil (String c r)) at 2; symmetry; apply str_drop_app).
    rewrite Hp. cbn [template_loop String.length Nat.eqb].
    eexists. split; [reflexivity|].
    unfold Format, getVars. split; [|split; [|reflexivity]]; intros m;
      [intros name|]; intros Hl; rewrite Hl; reflexivity.
Qed.

(** X12: the [console] plugin's stream chooser reports an error only when the
    [stream] option is empty or missing. *)
Theorem consolePlugin_only_empty_stream_fails options :
  snd (consolePlugin options) <> None <-> lookup_str "stream" options = "".
Proof.
  unfold consolePlugin.
  destruct (String.eqb_spec (lookup_str "stream" options) "stdout") as [->|H1];
    [simpl; split; [congruence|discriminate]|].
  destruct (String.eqb_spec (lookup_str "stream" options) "stderr") as [->|H2];
    [simpl; split; [congruence|discriminate]|].
  destruct (String.eqb_spec (lookup_str "stream" options) "") as [->|H3];
    [simpl; split; [reflexivity|discriminate]|].
  destruct (Atoi (lookup_str "stream" options)); simpl; split; congruence.
Qed.

(** X13: a [stream] that is not [stdout], [stderr] or an integer gives no
    error: the error is assigned to a shadowed variable, and the [console]
    plugin builds an outputter that writes to a nil writer. *)
Theorem consolePlugin_invalid_stream options f :
  lookup_str "stream" options <> "stdout" -> lookup_str "stream" options <> "stderr" ->
  lookup_str "stream" options <> "" -> Atoi (lookup_str "stream" options) = None ->
  lookup_str "format" options <> "" ->
  NewBasicFormatter (lookup_str "format" options ++ String (ascii_of_nat 10) "") = Some f ->
  consolePlugin options = (WNil, None) /\
  WriterPlugin_CreateOutputter consolePlugin options = CreatedOutput f WNil.
Proof.
  intros H1 H2 H3 Ha Hf Hb.
  assert (Hc : consolePlugin options = (WNil, None)).
  { unfold consolePlugin.
    rewrite (proj2 (String.eqb_neq _ _) H1), (proj2 (String.eqb_neq _ _) H2),
      (proj2 (String.eqb_neq _ _) H3), Ha. reflexivity. }
  split; [exact Hc|].
  unfold WriterPlugin_CreateOutputter. rewrite (proj2 (String.eqb_neq _ _) Hf), Hb, Hc.
  reflexivity.
Qed.

Lemma consolePlugin_invalid_stream_witness :
  exists f, consolePlugin console_foo_options = (WNil, None) /\
    WriterPlugin_CreateOutputter consolePlugin console_foo_options = CreatedOutput f WNil.
Proof.
  eexists. apply consolePlugin_invalid_stream;
    [discriminate|discriminate|discriminate|reflexivity|discriminate|reflexivity].
Defined.

(** X14: [WriterPlugin.CreateOutputter] fails when the [format] option is
    empty or missing; otherwise it panics when the format plus a newline is
    not a valid template, before the stream is chosen; and it returns the
    stream chooser's error when the format is valid. *)
Theorem WriterPlugin_CreateOutputter_order chooser options :
  (lookup_str "format" options = "" ->
   WriterPlugin_CreateOutputter chooser options =
     CreatedError "console formatting string not specified") /\
  (lookup_str "format" options <> "" ->
   template_ok (lookup_str "format" options ++ String (ascii_of_nat 10) "") = false ->
   WriterPlugin_CreateOutputter chooser options =
     CreatedPanic ("invalid template: " ++
                   (lookup_str "format" options ++ String (ascii_of_nat 10) ""))) /\
  (forall e w, chooser options = (w, Some e) ->
   template_ok (lookup_str "format" options ++ String (ascii_of_nat 10) "") = true ->
   lookup_str "format" options <> "" ->
   WriterPlugin_CreateOutputter chooser options = CreatedError e).
Proof.
  unfold WriterPlugin_CreateOutputter. split; [|split].
  - intros H. rewrite H. reflexivity.
  - intros H Hok. rewrite (proj2 (String.eqb_neq _ _) H).
    unfold NewBasicFormatter. rewrite (proj2 (template_loop_none _ _ (Nat.lt_succ_diag_r _)) Hok).
    reflexivity.
  - intros e w Hc Hok H. rewrite (proj2 (String.eqb_neq _ _) H).
    unfold NewBasicFormatter.
    destruct (template_loop _ _) eqn:E.
    + rewrite Hc. reflexivity.
    + apply (template_loop_none _ _ (Nat.lt_succ_diag_r _)) in E. congruence.
Qed.

Lemma WriterPlugin_CreateOutputter_order_witness :
  WriterPlugin_CreateOutputter consolePlugin console_bad_format =
    CreatedPanic ("invalid template: " ++ ("$msg costs 5$" ++ String (ascii_of_nat 10) "")) /\
  WriterPlugin_CreateOutputter consolePlugin [("format", "$msg")] =
    CreatedError "console stream not specified".
Proof.
  split.
  - exact (proj1 (proj2 (WriterPlugin_CreateOutputter_order consolePlugin console_bad_format))
             ltac:(discriminate) eq_refl).
  - exact (proj2 (proj2 (WriterPlugin_CreateOutputter_order consolePlugin [("format", "$msg")]))
             "console stream not specified" WNil eq_refl eq_refl ltac:(discriminate)).
Defined.

Lemma NewBasicFormatter_panics_witness :
  NewBasicFormatter "cost: 5$" = None /\ template_ok "cost: 5$" = false.
Proof.
  split; [|reflexivity]. apply NewBasicFormatter_panics. reflexivity.
Defined.

Lemma Format_literal_template_witness :
  exists b, NewBasicFormatter "-- " = Some b /\
    Format b (Some (mkFullMessage Info "hello" (fun _ => "") "/src/main.go" 12 (Some "app")))
      = Some "-- " /\
    Format b (Some (mkFullMessage Info "hello" (fun _ => "") "/src/main.go" 12 None)) = None.
Proof.
  destruct (Format_literal_template "-- " ltac:(simpl; intuition discriminate))
    as (b & Hb & Hsome & Hnone & _).
  exists b. split; [exact Hb|]. split; [apply (Hsome _ "app"); reflexivity|].
  apply Hnone. reflexivity.
Defined.

Lemma newOutputterConfig_threshold_filters_witness :
  newOutputterConfig mock_registry [("type", "mock"); ("threshold", "warn")] =
    inr (ThresholdOutputter Warn (PluginOutputter 0)) /\
  exists lvl, ReverseLevelStrings (ToUpper "warn") = Some lvl /\
    forall msg, Output (ThresholdOutputter Warn (PluginOutputter 0)) msg =
      if Z.ltb (MsgLevel msg) lvl then [] else Output (PluginOutputter 0) msg.
Proof.
  split; [reflexivity|].
  exact (newOutputterConfig_threshold_filters mock_registry [("type", "mock"); ("threshold", "warn")]
           "mock" (fun _ => inr (PluginOutputter 0)) (PluginOutputter 0)
           (ThresholdOutputter Warn (PluginOutputter 0)) "warn"
           eq_refl eq_refl eq_refl eq_refl eq_refl).
Defined.

Lemma DefaultSetup_earlier_loggers_witness :
  lookup_path (Root (DefaultSetup (PluginOutputter 0) (fst (Get init_state "a")))) ["a"] =
    Some (newLogger "a") /\
  Log (Root (DefaultSetup (PluginOutputter 0) (fst (Get init_state "a")))) ["a"] Fatal "x" = None.
Proof.
  destruct (DefaultSetup_earlier_loggers (PluginOutputter 0) (fst (Get init_state "a")) ["a"]
              (newLogger "a") ltac:(discriminate) eq_refl) as [H1 H2].
  split; [exact H1|]. apply H2; [reflexivity|simpl; tauto].
Defined.

Lemma DefaultSetup_then_Get_witness :
  Log (Root (fst (Get (DefaultSetup (PluginOutputter 0) init_state) "my.logger")))
      (snd (Get (DefaultSetup (PluginOutputter 0) init_state) "my.logger")) Info "hi" =
  Some (mkMessage Info "hi" ["my"; "logger"],
        [(PluginOutputter 0, mkMessage Info "hi" ["my"; "logger"])]).
Proof.
  exact (DefaultSetup_then_Get (PluginOutputter 0) init_state "my.logger" Info "hi"
           eq_refl ltac:(simpl; tauto)).
Defined.
